(** * minutes: worklog upload pipeline (tempo-cloud uploader, task extraction,
    uploader selection)

    Shallow embedding of
      - [internal/pkg/client/fetcher.go]   (ExtractTasks),
      - the tempo-cloud client              (tempoClient.UploadEntries, newClient),
      - the root command                    (getUploader),
    together with the parts of the Go runtime they rely on: [int64]
    wrap-around, IEEE-754 binary64 arithmetic (through the Standard Library's
    [SpecFloat]), [time.Duration.Seconds], [time.Duration.Minutes] and
    [math.Round]. *)

From Stdlib Require Import ZArith Lia Bool List String.
From Stdlib Require Import Floats.SpecFloat.
From stdpp Require Import gmap strings list fin_maps.

(** ** Go's [float64] *)

Module Float64.
Local Open Scope Z_scope.

Definition prec : Z := 53.
Definition emax : Z := 1024.

Definition float64 : Type := spec_float.

Definition add : float64 -> float64 -> float64 := SFadd prec emax.
Definition mul : float64 -> float64 -> float64 := SFmul prec emax.
Definition div : float64 -> float64 -> float64 := SFdiv prec emax.

(** [float64(z)] for an integer [z]: the nearest double, ties to even. *)
Definition of_int (z : Z) : float64 := binary_normalize prec emax z 0 false.

Definition minInt64 : Z := - 2 ^ 63.
Definition maxInt64 : Z := 2 ^ 63 - 1.

(** Integer part, towards zero, of a finite double [(-1)^s * m * 2^e]. *)
Definition trunc_mag (m : positive) (e : Z) : Z :=
  if 0 <=? e then Z.pos m * 2 ^ e else Z.pos m / 2 ^ (- e).

(** [int64(f)]: truncation towards zero.  For NaN, infinities and values out
    of range Go leaves the result to the implementation; amd64 yields the
    smallest [int64]. *)
Definition to_int64 (f : float64) : Z :=
  match f with
  | S754_zero _ => 0
  | S754_finite s m e =>
      let t := cond_Zopp s (trunc_mag m e) in
      if (minInt64 <=? t) && (t <=? maxInt64) then t else minInt64
  | _ => minInt64
  end.

(** The double holding the integer [(-1)^s * k], for [0 <= k]; the sign is
    kept on zero. *)
Definition signed_int (s : bool) (k : Z) : float64 :=
  match k with
  | Z.pos p => binary_round prec emax s p 0
  | _ => S754_zero s
  end.

(** [math.Round]: nearest integer, halves away from zero; signed zeros,
    infinities and NaN are returned unchanged. *)
Definition Round (f : float64) : float64 :=
  match f with
  | S754_finite s m e =>
      if 0 <=? e then f
      else
        let t := Z.pos m / 2 ^ (- e) in
        let r := Z.pos m mod 2 ^ (- e) in
        signed_int s (if 2 ^ (- e) <=? 2 * r then t + 1 else t)
  | _ => f
  end.

(** Vocabulary for the proofs about rounding. *)

(** A shifted mantissa is flagged inexact when a round or sticky bit is set. *)
Definition inexact (x : shr_record) : bool := shr_r x || shr_s x.

(** [y] is [x] shifted right by [n] bits; if [y] is flagged inexact then
    a non-zero bit was shifted out or [x] was flagged already. *)
Definition ShiftedBy (n : Z) (x y : shr_record) : Prop :=
  shr_m y = shr_m x / 2 ^ n /\
  (inexact y = true -> shr_m x mod 2 ^ n <> 0 \/ inexact x = true).

(** The normalised double [(-1)^s * z * 2^e], for [0 < z < 2^53]. *)
Definition normal (s : bool) (z e : Z) : float64 :=
  S754_finite s (Z.to_pos (z * 2 ^ (53 - Zdigits2 z))) (e + Zdigits2 z - 53).

End Float64.

(** ** Go's [time.Duration] *)

Module Duration.
Import Float64.
Local Open Scope Z_scope.

(** A [Duration] is an [int64] count of nanoseconds. *)
Definition Duration : Type := Z.

Definition wrap64 (z : Z) : Z := (z + 2 ^ 63) mod 2 ^ 64 - 2 ^ 63.

Definition in_int64 (z : Z) : Prop := minInt64 <= z <= maxInt64.

Definition Nanosecond : Duration := 1.
Definition Second : Duration := 1000000000.
Definition Minute : Duration := 60 * Second.

Definition dadd (a b : Duration) : Duration := wrap64 (a + b).
Definition dmul (a b : Duration) : Duration := wrap64 (a * b).

(** [d.Seconds()]:
    [sec := d / Second; nsec := d % Second;
     return float64(sec) + float64(nsec)/1e9]. *)
Definition Seconds (d : Duration) : float64 :=
  let sec := Z.quot d Second in
  let nsec := Z.rem d Second in
  add (of_int sec) (div (of_int nsec) (of_int 1000000000)).

(** [d.Minutes()]:
    [min := d / Minute; nsec := d % Minute;
     return float64(min) + float64(nsec)/(60*1e9)]. *)
Definition Minutes (d : Duration) : float64 :=
  let min := Z.quot d Minute in
  let nsec := Z.rem d Minute in
  add (of_int min) (div (of_int nsec) (of_int 60000000000)).

(** [time.Second * time.Duration(math.Round(d.Minutes())*60)]: the
    expression both duration components go through when rounding to the
    closest minute is requested. *)
Definition roundToClosestMinute (d : Duration) : Duration :=
  dmul Second (to_int64 (mul (Round (Minutes d)) (of_int 60))).

End Duration.

(** ** Package [worklog] *)

Module Worklog.
Import Duration.

Record IDNameField : Type := mkIDName { ID : string; Name : string }.

(** [time.Time] is kept abstract: only its formatting is used. *)
Definition Time : Type := Z.

Record Entry : Type := mkEntry {
  Client : IDNameField;
  Project : IDNameField;
  Task : IDNameField;
  Summary : string;
  Notes : string;
  Start : Time;
  BillableDuration : Duration;
  UnbillableDuration : Duration
}.

Definition Entries : Type := list Entry.

(** The entry with its two durations replaced. *)
Definition setDurations (e : Entry) (billable unbillable : Duration) : Entry :=
  {| Client := Client e; Project := Project e; Task := Task e;
     Summary := Summary e; Notes := Notes e; Start := Start e;
     BillableDuration := billable; UnbillableDuration := unbillable |}.

(** Modelled from the spec: [Entries.GroupByTask] is not part of the
    available sources.  Section 4.3 describes it as a stable partition of
    the entries into groups keyed by the task identifier, every entry
    landing in exactly one group, relative order kept inside a group. *)
Definition GroupByTask (es : Entries) : gmap string Entries :=
  foldl (fun groups entry =>
           let key := ID (Task entry) in
           <[key := default [] (groups !! key) ++ [entry]]> groups)
        ∅ es.

(** Number of entries held by all the groups together. *)
Definition groupedCount (groups : gmap string Entries) : nat :=
  sum_list (length ∘ snd <$> map_to_list groups).

End Worklog.

(** ** Package [client] *)

Module Client.
Import Worklog.

Definition error : Type := string.

Definition SplitAcrossTasks : string := "split".
Definition FirstTaskOnly : string := "first-only".
Definition MultipleTaskModes : list string := [SplitAcrossTasks; FirstTaskOnly].

Definition ErrFetchEntries : error := "failed to fetch entries".

Section TaskExtraction.
(** [*regexp.Regexp] values (nil included) and the helpers of packages
    [utils] and [worklog] that interpret them are outside the available
    sources; they are parameters of the embedding. *)
Variable Regexp : Type.
Variable IsRegexSet : Regexp -> bool.
Variable TasksFromSummary : Entry -> Regexp -> list IDNameField.
Variable TasksFromTags : Entry -> list IDNameField -> Regexp -> list IDNameField.
Variable TasksFromProject : Entry -> Regexp -> list IDNameField.

Record TaskExtractionOpts : Type := mkTaskExtractionOpts {
  TagsAsTasksRegex : Regexp;
  TaskInSummaryRegex : Regexp;
  TaskInProjectRegex : Regexp;
  MultipleTaskMode : string
}.

Definition ExtractTasks (e : Entry) (tags : list IDNameField)
    (opts : TaskExtractionOpts) : list IDNameField :=
  let tasks : list IDNameField := [] in
  let tasks :=
    if IsRegexSet (TaskInSummaryRegex opts)
    then tasks ++ TasksFromSummary e (TaskInSummaryRegex opts)
    else tasks in
  let tasks :=
    if IsRegexSet (TagsAsTasksRegex opts)
       && (String.eqb (MultipleTaskMode opts) SplitAcrossTasks
           || Nat.eqb (length tasks) 0)
    then tasks ++ TasksFromTags e tags (TagsAsTasksRegex opts)
    else tasks in
  let tasks :=
    if IsRegexSet (TaskInProjectRegex opts)
       && (String.eqb (MultipleTaskMode opts) SplitAcrossTasks
           || Nat.eqb (length tasks) 0)
    then tasks ++ TasksFromProject e (TaskInProjectRegex opts)
    else tasks in
  let tasks :=
    if String.eqb (MultipleTaskMode opts) FirstTaskOnly
       && Nat.ltb 1 (length tasks)
    then take 1 tasks
    else tasks in
  tasks.

(** What each source contributes when it is consulted. *)
Definition fromSummary (e : Entry) (opts : TaskExtractionOpts) :=
  if IsRegexSet (TaskInSummaryRegex opts) then TasksFromSummary e (TaskInSummaryRegex opts) else [].
Definition fromTags (e : Entry) (tags : list IDNameField)
    (opts : TaskExtractionOpts) :=
  if IsRegexSet (TagsAsTasksRegex opts) then TasksFromTags e tags (TagsAsTasksRegex opts) else [].
Definition fromProject (e : Entry) (opts : TaskExtractionOpts) :=
  if IsRegexSet (TaskInProjectRegex opts) then TasksFromProject e (TaskInProjectRegex opts) else [].
End TaskExtraction.

Arguments TagsAsTasksRegex {Regexp} t.
Arguments TaskInSummaryRegex {Regexp} t.
Arguments TaskInProjectRegex {Regexp} t.
Arguments MultipleTaskMode {Regexp} t.

Record UploadOpts : Type := mkUploadOpts {
  User : string;
  TreatDurationAsBilled : bool;
  RoundToClosestMinute : bool
}.

Record BasicAuth : Type := mkBasicAuth { Username : string; Password : string }.
Record TokenAuth : Type :=
  mkTokenAuth { Header : string; TokenName : string; Token : string }.

Record BaseClientOpts : Type := mkBaseClientOpts { Timeout : Z }.

End Client.

(** ** Package [tempocloud] *)

Module TempoCloud.
Import Float64 Duration Worklog Client.

Definition TempoPathWorklogCreate : string := "/4/worklogs".
Definition JiraPathIssue : string := "/rest/api/3/issue/".

Record JiraIssue : Type := mkJiraIssue { issueID : Z; issueKey : string }.

Record UploadEntry : Type := mkUploadEntry {
  Comment : string;
  IssueID : Z;
  StartDate : string;
  StartTime : string;
  BillableSeconds : Z;
  TimeSpentSeconds : Z;
  AuthorAccountID : string
}.

Record ClientOpts : Type := mkClientOpts {
  baseClientOpts : BaseClientOpts;
  TempoAuth : TokenAuth;
  JiraAuth : BasicAuth;
  TempoBaseURL : string;
  JiraBaseURL : string
}.

(** Lines 118-131 of [UploadEntries]: the billable and unbillable durations
    and the total time spent after the optional fold and the optional
    rounding, in that order. *)
Definition durationPolicy (opts : UploadOpts) (entry : Entry)
    : Duration * Duration * Duration :=
  let billableDuration := BillableDuration entry in
  let unbillableDuration := UnbillableDuration entry in
  let totalTimeSpent := dadd billableDuration unbillableDuration in
  let '(billableDuration, unbillableDuration) :=
    if TreatDurationAsBilled opts
    then (dadd (UnbillableDuration entry) (BillableDuration entry), 0%Z)
    else (billableDuration, unbillableDuration) in
  if RoundToClosestMinute opts
  then
    let billableDuration := roundToClosestMinute billableDuration in
    let unbillableDuration := roundToClosestMinute unbillableDuration in
    (billableDuration, unbillableDuration,
     dadd billableDuration unbillableDuration)
  else (billableDuration, unbillableDuration, totalTimeSpent).

Definition postBillable (opts : UploadOpts) (entry : Entry) : Duration :=
  (durationPolicy opts entry).1.1.
Definition postUnbillable (opts : UploadOpts) (entry : Entry) : Duration :=
  (durationPolicy opts entry).1.2.
Definition postTotal (opts : UploadOpts) (entry : Entry) : Duration :=
  (durationPolicy opts entry).2.

(** [int(d.Seconds())] *)
Definition wholeSeconds (d : Duration) : Z := to_int64 (Seconds d).

Section Uploader.
(** Collaborators outside the available sources: [*url.URL],
    [client.Authenticator], [HTTPClient.URL] (called with an empty
    parameter map), [client.ErrUploadEntries], [json.Unmarshal] into a
    [JiraIssue], the two date layouts applied to [entry.Start.Local()]
    and the [%+v] rendering of an upload entry. *)
Variable Url : Type.
Variable Authenticator : Type.

Record HTTPClient : Type := mkHTTPClient { BaseURL : Url }.

Record tempoClient : Type := mkTempoClient {
  clientOpts : BaseClientOpts;
  tempoHttpClient : HTTPClient;
  jiraHttpClient : HTTPClient;
  tempoAuthenticator : Authenticator;
  jiraAuthenticator : Authenticator
}.

Variable URL : HTTPClient -> string -> string + error.
Variable ErrUploadEntries : error.
Variable Unmarshal : string -> JiraIssue + error.
Variable formatDate : Time -> string.
Variable formatTime : Time -> string.
Variable showUploadEntry : UploadEntry -> string.

Record HTTPRequestOpts : Type := mkHTTPRequestOpts {
  Method : string;
  RequestUrl : string;
  Auth : Authenticator;
  RequestTimeout : Z;
  Data : option UploadEntry;
  Headers : list (string * string)
}.

(** What one goroutine does, in program order. *)
Inductive Event : Type :=
| StartTracking (entry : Entry)
| Call (req : HTTPRequestOpts)
| StopTracking (entry : Entry) (err : option error)
| Send (err : option error).

(** What the two remote services answer to the requests made for one
    entry: the Jira issue lookup and the Tempo worklog creation. *)
Record Response : Type := mkResponse {
  jiraResp : string + error;
  tempoErr : option error
}.

(** Lines 133-141. *)
Definition makeUploadEntry (entry : Entry) (issue : JiraIssue)
    (opts : UploadOpts) : UploadEntry :=
  let '(billableDuration, _, totalTimeSpent) := durationPolicy opts entry in
  {| Comment := Summary entry;
     IssueID := issueID issue;
     StartDate := formatDate (Start entry);
     StartTime := formatTime (Start entry);
     BillableSeconds := wholeSeconds billableDuration;
     TimeSpentSeconds := wholeSeconds totalTimeSpent;
     AuthorAccountID := User opts |}.

Definition jsonHeaders : list (string * string) :=
  [("Content-Type", "application/json")].

(** The body of the goroutine started for one group (lines 86-160);
    [env i] is what the services answer for the [i]-th entry of the
    group, [i0] the index of the first entry of [entries]. *)
Fixpoint uploadGroup (c : tempoClient) (createURL getIssueURL : string)
    (opts : UploadOpts) (env : nat -> Response) (i0 : nat)
    (entries : Entries) : list Event :=
  match entries with
  | [] => []
  | entry :: rest =>
      let continue :=
        uploadGroup c createURL getIssueURL opts env (S i0) rest in
      let issueKey := Name (Task entry) in
      let lookup :=
        {| Method := "GET";
           RequestUrl := getIssueURL +:+ issueKey;
           Auth := jiraAuthenticator c;
           RequestTimeout := Timeout (clientOpts c);
           Data := None;
           Headers := jsonHeaders |} in
      StartTracking entry :: Call lookup ::
      match jiraResp (env i0) with
      | inr err =>
          let err :=
            ErrUploadEntries +:+ ": " +:+ issueKey +:+ ": " +:+ err in
          StopTracking entry (Some err) :: Send (Some err) :: continue
      | inl resp =>
          match Unmarshal resp with
          | inr err =>
              let err := ErrFetchEntries +:+ ": " +:+ err in
              StopTracking entry (Some err) :: Send (Some err) :: continue
          | inl issue =>
              let uploadEntry := makeUploadEntry entry issue opts in
              let create :=
                {| Method := "POST";
                   RequestUrl := createURL;
                   Auth := tempoAuthenticator c;
                   RequestTimeout := Timeout (clientOpts c);
                   Data := Some uploadEntry;
                   Headers := jsonHeaders |} in
              let err :=
                match tempoErr (env i0) with
                | Some err =>
                    Some (ErrUploadEntries +:+ ": "
                          +:+ showUploadEntry uploadEntry +:+ ": " +:+ err)
                | None => None
                end in
              Call create :: StopTracking entry err :: Send err :: continue
          end
      end
  end.

(** One run of [UploadEntries]: what the calling goroutine does itself
    and what each group goroutine does.  Go ranges over the map of groups
    in an unspecified order; the list order below carries no meaning. *)
Record Run : Type := mkRun {
  caller : list Event;
  groupTasks : list (list Event)
}.

Definition UploadEntries (c : tempoClient) (env : string -> nat -> Response)
    (entries : Entries) (opts : UploadOpts) : Run :=
  match URL (tempoHttpClient c) TempoPathWorklogCreate with
  | inr err =>
      {| caller := [Send (Some (ErrUploadEntries +:+ ": " +:+ err))];
         groupTasks := [] |}
  | inl createURL =>
      match URL (jiraHttpClient c) JiraPathIssue with
      | inr err =>
          {| caller := [Send (Some (ErrUploadEntries +:+ ": " +:+ err))];
             groupTasks := [] |}
      | inl getIssueURL =>
          {| caller := [];
             groupTasks :=
               (fun g : string * Entries =>
                  uploadGroup c createURL getIssueURL opts (env g.1) 0 g.2)
                 <$> map_to_list (GroupByTask entries) |}
      end
  end.

(** The values a goroutine puts on the error channel, in order. *)
Definition sent (tr : list Event) : list (option error) :=
  omap (fun ev => match ev with Send err => Some err | _ => None end) tr.

(** The entries a goroutine starts working on, in order. *)
Definition attempted (tr : list Event) : list Entry :=
  omap (fun ev => match ev with StartTracking e => Some e | _ => None end) tr.

Definition published (r : Run) : nat :=
  length (sent (caller r)) + sum_list (length ∘ sent <$> groupTasks r).

(** The result of working on one entry, as a function of the entry and
    of the answers it got. *)
Definition entryResult (opts : UploadOpts) (r : Response) (entry : Entry)
    : option error :=
  match jiraResp r with
  | inr err =>
      Some (ErrUploadEntries +:+ ": " +:+ Name (Task entry) +:+ ": " +:+ err)
  | inl resp =>
      match Unmarshal resp with
      | inr err => Some (ErrFetchEntries +:+ ": " +:+ err)
      | inl issue =>
          match tempoErr r with
          | Some err =>
              Some (ErrUploadEntries +:+ ": "
                    +:+ showUploadEntry (makeUploadEntry entry issue opts)
                    +:+ ": " +:+ err)
          | None => None
          end
      end
  end.

(** [newClient] and [NewUploader] (lines 165-198); [url.Parse],
    [client.NewTokenAuth] and [client.NewBasicAuth] are outside the
    available sources. *)
Variable url_Parse : string -> Url + error.
Variable NewTokenAuth : string -> string -> string -> Authenticator + error.
Variable NewBasicAuth : string -> string -> Authenticator + error.

Definition newClient (opts : ClientOpts) : option tempoClient * option error :=
  match url_Parse (TempoBaseURL opts) with
  | inr err => (None, Some err)
  | inl tempoBaseURL =>
  match url_Parse (JiraBaseURL opts) with
  | inr err => (None, Some err)
  | inl jiraBaseURL =>
  match NewTokenAuth (Header (TempoAuth opts)) (TokenName (TempoAuth opts))
                     (Token (TempoAuth opts)) with
  | inr err => (None, Some err)
  | inl tempoAuthenticator =>
  match NewBasicAuth (Username (JiraAuth opts)) (Password (JiraAuth opts)) with
  | inr err => (None, Some err)
  | inl jiraAuthenticator =>
      (Some {| tempoAuthenticator := tempoAuthenticator;
               jiraAuthenticator := jiraAuthenticator;
               tempoHttpClient := {| BaseURL := tempoBaseURL |};
               jiraHttpClient := {| BaseURL := jiraBaseURL |};
               clientOpts := baseClientOpts opts |},
       None)
  end end end end.
End Uploader.

Arguments StartTracking {Authenticator} entry.
Arguments Call {Authenticator} req.
Arguments StopTracking {Authenticator} entry err.
Arguments Send {Authenticator} err.
Arguments caller {Authenticator} r.
Arguments groupTasks {Authenticator} r.
Arguments sent {Authenticator} tr.
Arguments attempted {Authenticator} tr.
Arguments published {Authenticator} r.

(** Streams that a single reader can receive from several senders: the
    senders' own sequences, merged in any order. *)
Inductive Merge {A : Type} : list (list A) -> list A -> Prop :=
| merge_done (ls : list (list A)) :
    Forall (fun l => l = []) ls -> Merge ls []
| merge_recv (ls : list (list A)) (i : nat) (x : A) (l out : list A) :
    ls !! i = Some (x :: l) ->
    Merge (<[i := l]> ls) out ->
    Merge ls (x :: out).

(** The streams the reader of the error channel can observe in a run. *)
Definition Delivered {Authenticator : Type}
    (r : Run Authenticator) (stream : list (option error)) : Prop :=
  Merge (sent (caller r) :: (sent <$> groupTasks r)) stream.

End TempoCloud.

(** ** Package [root]: selection of the uploader *)

Module Root.
Import Client.

Definition ErrNoTargetImplementation : error := "no target implementation found".

Section GetUploader.
(** The [tempo] package, [tempocloud.NewUploader]'s collaborators and
    [client.DefaultRequestTimeout] are outside the available sources. *)
Variable Url : Type.
Variable Authenticator : Type.
Variable url_Parse : string -> Url + error.
Variable NewTokenAuth : string -> string -> string -> Authenticator + error.
Variable NewBasicAuth : string -> string -> Authenticator + error.
Variable DefaultRequestTimeout : Z.

Variable TempoImpl : Type.

Record TempoClientOpts : Type := mkTempoClientOpts {
  tempoBase : BaseClientOpts;
  tempoBasicAuth : BasicAuth;
  tempoBaseURL : string
}.

(** A [client.Uploader] interface value is a dynamic type together with
    a value of that type; for [*tempoClient] the value may be a nil
    pointer.  The nil interface is [None] at type [option Uploader]. *)
Inductive Uploader : Type :=
| TempoUploader (u : TempoImpl)
| TempoCloudUploader (c : option (TempoCloud.tempoClient Url Authenticator)).

Variable tempo_NewUploader : TempoClientOpts -> option Uploader * option error.

(** [tempocloud.NewUploader]: [return newClient(opts)], the pointer being
    converted to the interface type. *)
Definition tempocloud_NewUploader (opts : TempoCloud.ClientOpts)
    : option Uploader * option error :=
  let '(c, err) :=
    TempoCloud.newClient Url Authenticator url_Parse NewTokenAuth NewBasicAuth opts in
  (Some (TempoCloudUploader c), err).

(** The configuration store read through [viper.GetString]: a missing key
    reads as the empty string. *)
Definition GetString (viper : gmap string string) (key : string) : string :=
  default EmptyString (viper !! key).

Definition getUploader (viper : gmap string string)
    : option Uploader * option error :=
  let target := GetString viper "target" in
  if String.eqb target "tempo" then
    tempo_NewUploader
      {| tempoBase := {| Timeout := DefaultRequestTimeout |};
         tempoBasicAuth :=
           {| Username := GetString viper "tempo-username";
              Password := GetString viper "tempo-password" |};
         tempoBaseURL := GetString viper "tempo-url" |}
  else if String.eqb target "tempo-cloud" then
    tempocloud_NewUploader
      {| TempoCloud.baseClientOpts := {| Timeout := DefaultRequestTimeout |};
         TempoCloud.TempoAuth :=
           {| Header := EmptyString; TokenName := "Bearer";
              Token := GetString viper "tempo-api-key" |};
         TempoCloud.JiraAuth :=
           {| Username := GetString viper "jira-username";
              Password := GetString viper "jira-api-key" |};
         TempoCloud.TempoBaseURL := GetString viper "tempo-cloud-url";
         TempoCloud.JiraBaseURL := GetString viper "jira-url" |}
  else (None, Some ErrNoTargetImplementation).
End GetUploader.

End Root.

(** ** Sample data

    The entries of the client tests, and simple stand-ins for the
    collaborators that are parameters of the embedding. *)

Module Samples.
Import Duration Worklog Client TempoCloud.
Local Open Scope Z_scope.

Definition start : Time := 1633132800.

Definition entryA : Entry :=
  {| Client := mkIDName "My Awesome Company" "My Awesome Company";
     Project := mkIDName "456" "MARVEL";
     Task := mkIDName "789" "CPT-2014";
     Summary := "Meet with The Winter Soldier";
     Notes := "I met with The Winter Soldier";
     Start := start;
     BillableDuration := 3600 * Second;
     UnbillableDuration := 0 |}.

Definition entryB : Entry :=
  {| Client := mkIDName "My Awesome Company" "My Awesome Company";
     Project := mkIDName "456" "MARVEL";
     Task := mkIDName "789" "CPT-2014";
     Summary := "Meet with The Winter Soldier";
     Notes := "I met with him again";
     Start := start;
     BillableDuration := 1800 * Second;
     UnbillableDuration := 1800 * Second |}.

Definition entryC : Entry :=
  {| Client := mkIDName "My Awesome Company" "My Awesome Company";
     Project := mkIDName "456" "MARVEL";
     Task := mkIDName "790" "CPT-2015";
     Summary := "Train with Falcon";
     Notes := "Shield practice";
     Start := start;
     BillableDuration := 0;
     UnbillableDuration := 3600 * Second |}.

Definition withDurations (billable unbillable : Duration) : Entry :=
  {| Client := Client entryA; Project := Project entryA; Task := Task entryA;
     Summary := Summary entryA; Notes := Notes entryA; Start := start;
     BillableDuration := billable; UnbillableDuration := unbillable |}.

Definition uploadOpts (treatAsBilled roundToMinute : bool) : UploadOpts :=
  {| User := "steve-rogers";
     TreatDurationAsBilled := treatAsBilled;
     RoundToClosestMinute := roundToMinute |}.

(** Patterns are plain strings here; the empty one counts as not set, and
    a set pattern "matches" by naming the tasks itself. *)
Definition isSet (re : string) : bool := negb (String.eqb re EmptyString).
Definition tasksNamed (names : list string) : list IDNameField :=
  (fun n => mkIDName n n) <$> names.
Definition summaryTasks (e : Entry) (re : string) : list IDNameField :=
  tasksNamed [re; re +:+ "-bis"].
Definition tagTasks (e : Entry) (tags : list IDNameField) (re : string)
    : list IDNameField := tags.
Definition projectTasks (e : Entry) (re : string) : list IDNameField :=
  [Project e].

Definition extractionOpts (mode : string) : TaskExtractionOpts string :=
  {| TagsAsTasksRegex := "TAG-\d+";
     TaskInSummaryRegex := "CPT-\d+";
     TaskInProjectRegex := "MARVEL";
     MultipleTaskMode := mode |}.

Definition client : tempoClient string string :=
  {| clientOpts := {| Timeout := 30 |};
     tempoHttpClient := {| BaseURL := "https://api.tempo.io" |};
     jiraHttpClient := {| BaseURL := "https://marvel.atlassian.net" |};
     tempoAuthenticator := "Bearer token";
     jiraAuthenticator := "Basic thor" |}.

Definition urlOk (c : HTTPClient string) (path : string) : string + error :=
  inl (BaseURL string c +:+ path).
Definition urlBroken (c : HTTPClient string) (path : string) : string + error :=
  inr "invalid base URL".

Definition unmarshal (resp : string) : JiraIssue + error :=
  if String.eqb resp EmptyString then inr "unexpected end of JSON input"
  else inl {| issueID := 789; issueKey := resp |}.

Definition formatDate (t : Time) : string := "2021-10-02".
Definition formatTime (t : Time) : string := "00:00:00".
Definition showUploadEntry (u : UploadEntry) : string := Comment u.

(** Every request succeeds. *)
Definition allFine (key : string) (i : nat) : Response :=
  {| jiraResp := inl "CPT-2014"; tempoErr := None |}.

(** The issue lookup of the second entry of a group times out. *)
Definition secondLookupFails (i : nat) : Response :=
  match i with
  | 1%nat => {| jiraResp := inr "timeout"; tempoErr := None |}
  | _ => {| jiraResp := inl "CPT-2014"; tempoErr := None |}
  end.

Definition parseUrl (raw : string) : string + error :=
  if String.eqb raw EmptyString then inr "empty url" else inl raw.
Definition tokenAuth (header name token : string) : string + error :=
  inl (name +:+ " " +:+ token).
Definition basicAuth (user password : string) : string + error :=
  inl ("Basic " +:+ user).

End Samples.

(** ** Reading the trace of an upload goroutine *)

Module Traces.
Import Worklog Client TempoCloud.

Section Traces.
Variable Authenticator : Type.

(** The trackers a goroutine stops, with the error handed to
    [StopTracking], in order. *)
Definition stopped (tr : list (Event Authenticator))
    : list (Entry * option error) :=
  omap (fun ev => match ev with
                  | StopTracking e err => Some (e, err)
                  | _ => None
                  end) tr.

(** The HTTP requests a goroutine makes, in order. *)
Definition requests (tr : list (Event Authenticator))
    : list (HTTPRequestOpts Authenticator) :=
  omap (fun ev => match ev with Call req => Some req | _ => None end) tr.

(** The request bodies a goroutine sends, in order. *)
Definition posted (tr : list (Event Authenticator)) : list UploadEntry :=
  omap (fun ev => match ev with
                  | Call req => Data Authenticator req
                  | _ => None
                  end) tr.
End Traces.

Arguments stopped {Authenticator} tr.
Arguments requests {Authenticator} tr.
Arguments posted {Authenticator} tr.

Section Payload.
Variable Unmarshal : string -> JiraIssue + error.
Variable formatDate : Time -> string.
Variable formatTime : Time -> string.

(** The worklog built for an entry once its issue is known: none when the
    lookup or the decoding of its answer fails (lines 100-141). *)
Definition entryPayload (opts : UploadOpts) (r : Response) (entry : Entry)
    : option UploadEntry :=
  match jiraResp r with
  | inr _ => None
  | inl resp =>
      match Unmarshal resp with
      | inr _ => None
      | inl issue => Some (makeUploadEntry formatDate formatTime entry issue opts)
      end
  end.
End Payload.

Section Requests.
Variable Url : Type.
Variable Authenticator : Type.

(** An issue lookup for one of [entries]: GET on the issue URL followed by
    the task name, with the Jira credentials and no body. *)
Definition lookupRequest (c : tempoClient Url Authenticator)
    (getIssueURL : string) (entries : Entries)
    (req : HTTPRequestOpts Authenticator) : Prop :=
  Method _ req = "GET" /\
  Auth _ req = jiraAuthenticator _ _ c /\
  Data _ req = None /\
  exists entry, entry ∈ entries /\
                RequestUrl _ req = getIssueURL +:+ Name (Task entry).

(** A worklog creation: POST on the creation URL, with the Tempo
    credentials and a body. *)
Definition createRequest (c : tempoClient Url Authenticator)
    (createURL : string) (req : HTTPRequestOpts Authenticator) : Prop :=
  Method _ req = "POST" /\
  Auth _ req = tempoAuthenticator _ _ c /\
  RequestUrl _ req = createURL /\
  is_Some (Data _ req).
End Requests.

End Traces.

(** ** The mock server of the [tempo] client tests *)

Module TempoTest.

Section MockServer.
(** The decoded request body (an [interface{}] value), [tempo.UploadEntry]
    and the comparison [data == entry] are outside the available
    sources. *)
Variable Decoded : Type.
Variable UploadEntry : Type.
Variable same : Decoded -> UploadEntry -> bool.

(** The loop over the expected upload entries in [mockServer]
    (lines 131-139), from index [i] on; [n] is the number of expected entries.  The
    result tells whether [t.Fatal] is reached. *)
Fixpoint expectFrom (data : Decoded) (n i : nat) (rest : list UploadEntry)
    : bool :=
  match rest with
  | [] => false
  | entry :: rest' =>
      if same data entry then false
      else if Nat.eqb i n && negb (same data entry) then true
      else expectFrom data n (S i) rest'
  end.

Definition uploadEntryCheckFails (data : Decoded)
    (allEntries : list UploadEntry) : bool :=
  expectFrom data (length allEntries) 0 allEntries.
End MockServer.

End TempoTest.

(** * Properties *)


(** ** Binary64 arithmetic *)

Module Float64Facts.
Import Float64.
Local Open Scope Z_scope.

(** *** Number of binary digits *)

Lemma digits2_pos_size (p : positive) : digits2_pos p = Pos.size p.
Proof. induction p as [p IH|p IH|]; simpl; by rewrite ?IH. Qed.

Lemma Zdigits2_log2 (p : positive) : Zdigits2 (Z.pos p) = Z.log2 (Z.pos p) + 1.
Proof.
  unfold Zdigits2. rewrite digits2_pos_size.
  destruct p; simpl; rewrite ?Pos2Z.inj_succ; lia.
Qed.

Lemma Zdigits2_bounds (z : Z) :
  0 < z -> 2 ^ (Zdigits2 z - 1) <= z < 2 ^ Zdigits2 z.
Proof.
  intros Hz. destruct z as [|p|p]; try lia.
  rewrite Zdigits2_log2. replace (Z.log2 (Z.pos p) + 1 - 1) with (Z.log2 (Z.pos p)) by lia.
  apply Z.log2_spec. lia.
Qed.

Lemma Zdigits2_unique (z d : Z) :
  0 < z -> 2 ^ (d - 1) <= z < 2 ^ d -> Zdigits2 z = d.
Proof.
  intros Hz Hd. destruct z as [|p|p]; try lia.
  assert (0 < d).
  { destruct (Z.lt_trichotomy d 0) as [Hn|[->|Hp]]; [|simpl in Hd; lia|done].
    rewrite (Z.pow_neg_r 2 d) in Hd by done. lia. }
  rewrite Zdigits2_log2.
  rewrite (Z.log2_unique (Z.pos p) (d - 1)); [lia|lia|].
  replace (Z.succ (d - 1)) with d by lia. done.
Qed.

Lemma Zdigits2_pos (z : Z) : 0 < z -> 0 < Zdigits2 z.
Proof. destruct z; simpl; lia. Qed.

Lemma Zdigits2_mul_pow2 (z k : Z) :
  0 < z -> 0 <= k -> Zdigits2 (z * 2 ^ k) = Zdigits2 z + k.
Proof.
  intros Hz Hk. pose proof (Zdigits2_bounds z Hz) as [Hl Hu].
  pose proof (Zdigits2_pos z Hz).
  apply Zdigits2_unique; [apply Z.mul_pos_pos; lia|].
  replace (Zdigits2 z + k - 1) with ((Zdigits2 z - 1) + k) by lia.
  rewrite !Z.pow_add_r by lia. split.
  - apply Z.mul_le_mono_nonneg_r; lia.
  - apply Z.mul_lt_mono_pos_r; lia.
Qed.

Lemma Zdigits2_div_pow2 (z k : Z) :
  0 < z -> 0 <= k -> k < Zdigits2 z -> Zdigits2 (z / 2 ^ k) = Zdigits2 z - k.
Proof.
  intros Hz Hk Hd. pose proof (Zdigits2_bounds z Hz) as [Hl Hu].
  assert (H2k : 0 < 2 ^ k) by (apply Z.pow_pos_nonneg; lia).
  assert (Hq : 2 ^ (Zdigits2 z - k - 1) <= z / 2 ^ k < 2 ^ (Zdigits2 z - k)).
  { split.
    - apply Z.div_le_lower_bound; [done|].
      rewrite <- Z.pow_add_r by lia.
      replace (k + (Zdigits2 z - k - 1)) with (Zdigits2 z - 1) by lia. done.
    - apply Z.div_lt_upper_bound; [done|].
      rewrite <- Z.pow_add_r by lia.
      replace (k + (Zdigits2 z - k)) with (Zdigits2 z) by lia. done. }
  apply Zdigits2_unique; [|done].
  assert (0 < 2 ^ (Zdigits2 z - k - 1)) by (apply Z.pow_pos_nonneg; lia). lia.
Qed.


(** *** Right shifts with sticky bits *)

Lemma ShiftedBy_refl (x : shr_record) : ShiftedBy 0 x x.
Proof. split; [by rewrite Z.div_1_r|auto]. Qed.

Lemma shr_1_shifted (x : shr_record) : 0 <= shr_m x -> ShiftedBy 1 x (shr_1 x).
Proof.
  destruct x as [m r s]. simpl. intros Hm. unfold ShiftedBy, inexact. simpl.
  change (2 ^ 1) with 2. rewrite <- Z.div2_div.
  destruct m as [|[p|p|]|]; simpl; try lia; (split; [done|]);
    rewrite ?Z.mod_0_l by lia; intros H;
    try (left; rewrite Zmod_odd; simpl; lia); right; done.
Qed.

Lemma mod_pow2_add_l (m a b : Z) :
  0 <= a -> 0 <= b -> m mod 2 ^ (a + b) = 0 -> m mod 2 ^ a = 0.
Proof.
  intros Ha Hb H. rewrite Z.pow_add_r in H by lia.
  assert (0 < 2 ^ a) by (apply Z.pow_pos_nonneg; lia).
  assert (0 < 2 ^ b) by (apply Z.pow_pos_nonneg; lia).
  apply Z.div_exact in H; [|lia]. rewrite H.
  rewrite <- Z.mul_assoc, Z.mul_comm. apply Z.mod_mul. lia.
Qed.

Lemma mod_pow2_add_r (m a b : Z) :
  0 <= a -> 0 <= b -> m mod 2 ^ (a + b) = 0 -> (m / 2 ^ a) mod 2 ^ b = 0.
Proof.
  intros Ha Hb H. rewrite Z.pow_add_r in H by lia.
  assert (0 < 2 ^ a) by (apply Z.pow_pos_nonneg; lia).
  assert (0 < 2 ^ b) by (apply Z.pow_pos_nonneg; lia).
  apply Z.div_exact in H; [|lia]. rewrite H at 1.
  rewrite <- Z.mul_assoc, (Z.mul_comm (2 ^ a)), Z.div_mul by lia.
  rewrite Z.mul_comm. apply Z.mod_mul. lia.
Qed.

Lemma ShiftedBy_trans (a b : Z) (x y z : shr_record) :
  0 <= a -> 0 <= b ->
  ShiftedBy a x y -> ShiftedBy b y z -> ShiftedBy (a + b) x z.
Proof.
  intros Ha Hb [Hy Hyi] [Hz Hzi].
  assert (Hpa : 0 < 2 ^ a) by (apply Z.pow_pos_nonneg; lia).
  assert (Hpb : 0 < 2 ^ b) by (apply Z.pow_pos_nonneg; lia).
  split.
  - rewrite Hz, Hy, Z.pow_add_r by lia. apply Z.div_div; lia.
  - intros Hi. destruct (Hzi Hi) as [Hne|Hyin].
    + left. intros H0. apply Hne. rewrite Hy. by apply mod_pow2_add_r.
    + destruct (Hyi Hyin) as [Hne|Hx]; [|by right].
      left. intros H0. apply Hne. by apply (mod_pow2_add_l _ a b).
Qed.

Lemma ShiftedBy_nonneg (n : Z) (x y : shr_record) :
  0 <= n -> 0 <= shr_m x -> ShiftedBy n x y -> 0 <= shr_m y.
Proof.
  intros Hn Hx [-> _]. apply Z.div_pos; [done|]. apply Z.pow_pos_nonneg; lia.
Qed.

Lemma iter_pos_shr_1_shifted (p : positive) (x : shr_record) :
  0 <= shr_m x -> ShiftedBy (Z.pos p) x (SpecFloat.iter_pos shr_1 p x).
Proof.
  revert x. induction p as [p IH|p IH|]; intros x Hx; simpl.
  - pose proof (shr_1_shifted x Hx) as H1.
    pose proof (ShiftedBy_nonneg 1 _ _ ltac:(lia) Hx H1) as Hx1.
    pose proof (IH _ Hx1) as H2.
    pose proof (ShiftedBy_nonneg (Z.pos p) _ _ ltac:(lia) Hx1 H2) as Hx2.
    pose proof (IH _ Hx2) as H3.
    replace (Z.pos p~1) with (1 + Z.pos p + Z.pos p) by lia.
    eapply ShiftedBy_trans; [lia|lia| |exact H3].
    eapply ShiftedBy_trans; [lia|lia|exact H1|exact H2].
  - pose proof (IH _ Hx) as H2.
    pose proof (ShiftedBy_nonneg (Z.pos p) _ _ ltac:(lia) Hx H2) as Hx2.
    pose proof (IH _ Hx2) as H3.
    replace (Z.pos p~0) with (Z.pos p + Z.pos p) by lia.
    eapply ShiftedBy_trans; [lia|lia|exact H2|exact H3].
  - by apply shr_1_shifted.
Qed.

Lemma shr_shifted (x : shr_record) (e n : Z) :
  0 <= n -> 0 <= shr_m x ->
  exists y, shr x e n = (y, e + n) /\ ShiftedBy n x y.
Proof.
  intros Hn Hx. destruct n as [|p|p]; try lia.
  - exists x. simpl. rewrite Z.add_0_r. split; [done|apply ShiftedBy_refl].
  - exists (SpecFloat.iter_pos shr_1 p x). split; [done|by apply iter_pos_shr_1_shifted].
Qed.

Lemma inexact_of_loc (m : Z) (l : location) :
  inexact (shr_record_of_loc m l) = true -> l <> loc_Exact.
Proof. by destruct l as [|[]]. Qed.

Lemma shr_m_of_loc (m : Z) (l : location) : shr_m (shr_record_of_loc m l) = m.
Proof. by destruct l as [|[]]. Qed.

Lemma round_nearest_even_cases (y : shr_record) :
  let r := round_nearest_even (shr_m y) (loc_of_shr_record y) in
  r = shr_m y \/ (r = shr_m y + 1 /\ inexact y = true).
Proof.
  destruct y as [m [] []]; simpl; unfold inexact; simpl; auto.
  destruct (Z.even m); auto.
Qed.

(** *** Rounding to 53 bits *)

Lemma fexp_normal (e : Z) : -1074 <= e - 53 -> fexp prec emax e = e - 53.
Proof. unfold fexp, emin, prec, emax. lia. Qed.

(** The mantissa kept by [binary_round_aux] is the truncated one or its
    successor, the latter only when something was cut off. *)
Lemma binary_round_aux_spec (s : bool) (mx ex : Z) (lx : location) :
  0 < mx ->
  let e' := Zdigits2 mx + ex - 53 in
  -1074 <= e' -> ex <= e' -> e' < 971 ->
  exists m1 : Z,
    (m1 = mx / 2 ^ (e' - ex) \/
     (m1 = mx / 2 ^ (e' - ex) + 1 /\
      (mx mod 2 ^ (e' - ex) <> 0 \/ lx <> loc_Exact))) /\
    2 ^ 52 <= mx / 2 ^ (e' - ex) < 2 ^ 53 /\
    binary_round_aux prec emax s mx ex lx =
      if m1 <? 2 ^ 53 then S754_finite s (Z.to_pos m1) e'
      else S754_finite s (Z.to_pos (2 ^ 52)) (e' + 1).
Proof.
  intros Hmx e' Hmin Hex Hmax.
  pose proof (Zdigits2_pos mx Hmx) as Hd.
  assert (Hf : 2 ^ 52 <= mx / 2 ^ (e' - ex) < 2 ^ 53).
  { assert (Hdd : Zdigits2 (mx / 2 ^ (e' - ex)) = 53).
    { rewrite Zdigits2_div_pow2; subst e'; lia. }
    assert (0 <= mx / 2 ^ (e' - ex)).
    { apply Z.div_pos; [lia|]. apply Z.pow_pos_nonneg; lia. }
    destruct (Z.eq_dec (mx / 2 ^ (e' - ex)) 0) as [H0|H0].
    { rewrite H0 in Hdd. discriminate. }
    pose proof (Zdigits2_bounds (mx / 2 ^ (e' - ex)) ltac:(lia)) as Hb.
    rewrite Hdd in Hb. exact Hb. }
  unfold binary_round_aux, shr_fexp.
  rewrite fexp_normal by (subst e'; lia). fold e'.
  destruct (shr_shifted (shr_record_of_loc mx lx) ex (e' - ex))
    as (y & Hy & Hsh & Hin); [lia|rewrite shr_m_of_loc; lia|].
  rewrite Hy. replace (ex + (e' - ex)) with e' by lia.
  rewrite shr_m_of_loc in Hsh, Hin.
  set (m1 := round_nearest_even (shr_m y) (loc_of_shr_record y)).
  exists m1. split; [|split; [exact Hf|]].
  - destruct (round_nearest_even_cases y) as [H|[H Hi]]; fold m1 in H.
    + left. by rewrite H, Hsh.
    + right. split; [by rewrite H, Hsh|].
      destruct (Hin Hi) as [?|Hl]; [by left|right].
      by apply inexact_of_loc in Hl.
  - assert (Hm1 : 2 ^ 52 <= m1 <= 2 ^ 53).
    { destruct (round_nearest_even_cases y) as [H|[H Hi]]; fold m1 in H;
        rewrite H, Hsh; lia. }
    destruct (Z.ltb_spec m1 (2 ^ 53)) as [Hlt|Hge].
    + assert (Hd1 : Zdigits2 m1 = 53) by (apply Zdigits2_unique; lia).
      rewrite Hd1, fexp_normal by lia.
      replace (53 + e' - 53 - e') with 0 by lia. simpl shr. cbn [shr_m].
      destruct m1 as [|p|p]; try lia. cbn [Z.to_pos].
      unfold emax, prec. destruct (Z.leb_spec e' (1024 - 53)); [done|lia].
    + assert (m1 = 2 ^ 53) by lia. subst m1. rewrite H.
      change (Zdigits2 (2 ^ 53)) with 54.
      rewrite fexp_normal by lia.
      replace (54 + e' - 53 - e') with 1 by lia.
      cbn -[Z.add Z.leb]. unfold emax, prec.
      destruct (Z.leb_spec (e' + 1) (1024 - 53)); [done|lia].
Qed.


(** *** Doubles that hold [z * 2^e] exactly *)

Lemma Zdigits2_le_53 (z : Z) : 0 < z < 2 ^ 53 -> 0 < Zdigits2 z <= 53.
Proof.
  intros [Hz Hlt]. pose proof (Zdigits2_bounds z Hz) as [Hl _].
  pose proof (Zdigits2_pos z Hz). split; [done|].
  destruct (Z.le_gt_cases (Zdigits2 z) 53) as [|Hgt]; [done|exfalso].
  assert (2 ^ 53 <= 2 ^ (Zdigits2 z - 1)) by (apply Z.pow_le_mono_r; lia). lia.
Qed.

(** Rounding [z * 2^k * 2^ex] when [z] fits in 53 bits loses nothing. *)
Lemma binary_round_aux_exact (s : bool) (z k ex : Z) :
  0 < z < 2 ^ 53 -> 0 <= k -> 53 <= Zdigits2 z + k ->
  -1074 <= Zdigits2 z + k + ex - 53 < 971 ->
  binary_round_aux prec emax s (z * 2 ^ k) ex loc_Exact = normal s z (ex + k).
Proof.
  intros Hz Hk Hd He. pose proof (Zdigits2_le_53 z Hz) as Hdz.
  assert (Hpk : 0 < 2 ^ k) by (apply Z.pow_pos_nonneg; lia).
  assert (Hmx : 0 < z * 2 ^ k) by (apply Z.mul_pos_pos; lia).
  destruct (binary_round_aux_spec s (z * 2 ^ k) ex loc_Exact Hmx)
    as (m1 & Hm1 & Hf & ->); rewrite ?Zdigits2_mul_pow2 by lia; try lia.
  rewrite Zdigits2_mul_pow2 in Hm1, Hf by lia.
  replace (Zdigits2 z + k + ex - 53 - ex) with (Zdigits2 z + k - 53) in * by lia.
  set (n := Zdigits2 z + k - 53) in *.
  assert (Hsplit : z * 2 ^ k = z * 2 ^ (53 - Zdigits2 z) * 2 ^ n).
  { rewrite <- Z.mul_assoc, <- Z.pow_add_r by (subst n; lia).
    f_equal. f_equal. subst n. lia. }
  assert (Hpn : 0 < 2 ^ n) by (apply Z.pow_pos_nonneg; subst n; lia).
  assert (Hdiv : z * 2 ^ k / 2 ^ n = z * 2 ^ (53 - Zdigits2 z)).
  { rewrite Hsplit. apply Z.div_mul. lia. }
  assert (Hmod : (z * 2 ^ k) mod 2 ^ n = 0).
  { rewrite Hsplit. apply Z.mod_mul. lia. }
  destruct Hm1 as [->|[_ [Hne|Hne]]]; [|done|done].
  rewrite Hdiv in *. destruct (Z.ltb_spec (z * 2 ^ (53 - Zdigits2 z)) (2 ^ 53)); [|lia].
  unfold normal. f_equal. lia.
Qed.

Lemma Pos_iter_xO (p k : positive) :
  Z.pos (Pos.iter xO p k) = Z.pos p * 2 ^ Z.pos k.
Proof.
  induction k as [|k IH] using Pos.peano_ind.
  - simpl. lia.
  - rewrite Pos.iter_succ, Pos2Z.inj_xO, IH, Pos2Z.inj_succ, Z.pow_succ_r by lia.
    lia.
Qed.

Lemma shl_align_spec (mx : positive) (ex ex' : Z) :
  ex' <= ex ->
  exists mz, shl_align mx ex ex' = (mz, ex') /\
             Z.pos mz = Z.pos mx * 2 ^ (ex - ex').
Proof.
  intros Hle. unfold shl_align.
  destruct (ex' - ex) as [|d|d] eqn:Hd; try lia.
  - exists mx. assert (ex' = ex) by lia. subst ex'.
    rewrite Z.sub_diag. simpl. split; [done|lia].
  - exists (Pos.iter xO mx d). split; [done|].
    rewrite Pos_iter_xO. f_equal. f_equal. lia.
Qed.

Lemma binary_round_exact (s : bool) (p : positive) (e : Z) :
  Z.pos p < 2 ^ 53 ->
  -1074 <= Zdigits2 (Z.pos p) + e - 53 < 971 ->
  binary_round prec emax s p e = normal s (Z.pos p) e.
Proof.
  intros Hp He. pose proof (Zdigits2_le_53 (Z.pos p) ltac:(lia)) as Hd.
  unfold binary_round. change (Z.pos (digits2_pos p)) with (Zdigits2 (Z.pos p)).
  rewrite fexp_normal by lia.
  destruct (shl_align_spec p e (Zdigits2 (Z.pos p) + e - 53)) as (mz & -> & Hmz);
    [lia|].
  rewrite Hmz.
  replace (e - (Zdigits2 (Z.pos p) + e - 53)) with (53 - Zdigits2 (Z.pos p)) by lia.
  rewrite binary_round_aux_exact; [|lia|lia|lia|lia].
  f_equal. lia.
Qed.

Lemma signed_int_normal (s : bool) (k : Z) :
  0 < k < 2 ^ 53 -> signed_int s k = normal s k 0.
Proof.
  intros Hk. destruct k as [|p|p]; try lia. simpl.
  pose proof (Zdigits2_le_53 (Z.pos p) Hk).
  apply binary_round_exact; lia.
Qed.

Lemma of_int_pos (z : Z) : 0 < z < 2 ^ 53 -> of_int z = normal false z 0.
Proof.
  intros Hz. destruct z as [|p|p]; try lia.
  pose proof (Zdigits2_le_53 (Z.pos p) Hz).
  unfold of_int, binary_normalize. apply binary_round_exact; lia.
Qed.

Lemma of_int_neg (z : Z) : 0 < z < 2 ^ 53 -> of_int (- z) = normal true z 0.
Proof.
  intros Hz. destruct z as [|p|p]; try lia.
  pose proof (Zdigits2_le_53 (Z.pos p) Hz).
  unfold of_int, binary_normalize. simpl Z.opp. apply binary_round_exact; lia.
Qed.

Lemma normal_mantissa (z : Z) :
  0 < z < 2 ^ 53 ->
  Z.pos (Z.to_pos (z * 2 ^ (53 - Zdigits2 z))) = z * 2 ^ (53 - Zdigits2 z).
Proof.
  intros Hz. pose proof (Zdigits2_le_53 z Hz).
  apply Z2Pos.id. apply Z.mul_pos_pos; [lia|]. apply Z.pow_pos_nonneg; lia.
Qed.

Lemma trunc_mag_normal (s : bool) (z : Z) :
  0 < z < 2 ^ 53 ->
  trunc_mag (Z.to_pos (z * 2 ^ (53 - Zdigits2 z))) (0 + Zdigits2 z - 53) = z.
Proof.
  intros Hz. pose proof (Zdigits2_le_53 z Hz) as Hd.
  unfold trunc_mag. rewrite normal_mantissa by done.
  destruct (Z.leb_spec 0 (0 + Zdigits2 z - 53)).
  - replace (Zdigits2 z) with 53 by lia. simpl. lia.
  - replace (- (0 + Zdigits2 z - 53)) with (53 - Zdigits2 z) by lia.
    apply Z.div_mul. apply Z.pow_nonzero; lia.
Qed.

Lemma to_int64_normal (s : bool) (z : Z) :
  0 < z < 2 ^ 53 -> to_int64 (normal s z 0) = cond_Zopp s z.
Proof.
  intros Hz. unfold to_int64, normal. rewrite trunc_mag_normal by done.
  unfold minInt64, maxInt64.
  destruct (Z.leb_spec (- 2 ^ 63) (cond_Zopp s z)),
    (Z.leb_spec (cond_Zopp s z) (2 ^ 63 - 1)); simpl; try done;
    destruct s; simpl in *; lia.
Qed.

Lemma Round_normal (s : bool) (z : Z) :
  0 < z < 2 ^ 53 -> Round (normal s z 0) = normal s z 0.
Proof.
  intros Hz. pose proof (Zdigits2_le_53 z Hz) as Hd.
  unfold Round, normal.
  destruct (Z.leb_spec 0 (0 + Zdigits2 z - 53)) as [|Hneg]; [done|].
  rewrite normal_mantissa by done.
  replace (- (0 + Zdigits2 z - 53)) with (53 - Zdigits2 z) by lia.
  assert (Hp : 0 < 2 ^ (53 - Zdigits2 z)) by (apply Z.pow_pos_nonneg; lia).
  rewrite Z.div_mul, Z.mod_mul by lia.
  destruct (Z.leb_spec (2 ^ (53 - Zdigits2 z)) (2 * 0)); [lia|].
  by rewrite signed_int_normal.
Qed.

Lemma mul_normal (s1 s2 : bool) (a b : Z) :
  0 < a -> 0 < b -> a * b < 2 ^ 53 ->
  mul (normal s1 a 0) (normal s2 b 0) = normal (xorb s1 s2) (a * b) 0.
Proof.
  intros Ha Hb Hab.
  assert (Ha53 : 0 < a < 2 ^ 53) by nia.
  assert (Hb53 : 0 < b < 2 ^ 53) by nia.
  pose proof (Zdigits2_le_53 a Ha53) as Hda.
  pose proof (Zdigits2_le_53 b Hb53) as Hdb.
  pose proof (Zdigits2_le_53 (a * b) ltac:(nia)) as Hdab.
  unfold mul, SFmul, normal.
  rewrite Pos2Z.inj_mul, !normal_mantissa by done.
  set (ka := 53 - Zdigits2 a). set (kb := 53 - Zdigits2 b).
  replace (a * 2 ^ ka * (b * 2 ^ kb)) with (a * b * 2 ^ (ka + kb)).
  2:{ rewrite Z.pow_add_r by (subst ka kb; lia). ring. }
  assert (Hlow : Zdigits2 a + Zdigits2 b - 1 <= Zdigits2 (a * b)).
  { pose proof (Zdigits2_bounds a Ha) as [Hla _].
    pose proof (Zdigits2_bounds b Hb) as [Hlb _].
    pose proof (Zdigits2_bounds (a * b) ltac:(nia)) as [_ Hu].
    assert (2 ^ (Zdigits2 a - 1) * 2 ^ (Zdigits2 b - 1) <= a * b).
    { apply Z.mul_le_mono_nonneg; try done; apply Z.pow_nonneg; lia. }
    rewrite <- Z.pow_add_r in * by lia.
    destruct (Z.le_gt_cases (Zdigits2 a + Zdigits2 b - 1) (Zdigits2 (a * b)));
      [done|exfalso].
    assert (2 ^ Zdigits2 (a * b) <= 2 ^ (Zdigits2 a - 1 + (Zdigits2 b - 1)))
      by (apply Z.pow_le_mono_r; lia).
    lia. }
  rewrite binary_round_aux_exact; subst ka kb; try lia.
  unfold normal. f_equal. lia.
Qed.


(** *** Rounding keeps representable bounds *)

Lemma pow2_pos (k : Z) : 0 <= k -> 0 < 2 ^ k.
Proof. intros. apply Z.pow_pos_nonneg; lia. Qed.

Lemma pow2_split (a b : Z) : 0 <= a -> 0 <= b -> 2 ^ (a + b) = 2 ^ a * 2 ^ b.
Proof. intros. apply Z.pow_add_r; lia. Qed.

(** If the exact value [mx * 2^ex] (plus what [lx] stands for) lies
    between [a] and [b] units of the last place kept, so does the rounded
    mantissa. *)
Lemma binary_round_aux_sandwich (s : bool) (mx ex : Z) (lx : location) (a b : Z) :
  0 < mx ->
  let e' := Zdigits2 mx + ex - 53 in
  -1074 <= e' -> ex <= e' -> e' < 971 ->
  a * 2 ^ (e' - ex) <= mx ->
  (mx < b * 2 ^ (e' - ex) \/ (mx = b * 2 ^ (e' - ex) /\ lx = loc_Exact)) ->
  exists (m : positive) (e : Z),
    binary_round_aux prec emax s mx ex lx = S754_finite s m e /\
    2 ^ 52 <= Z.pos m < 2 ^ 53 /\
    e' <= e <= e' + 1 /\
    a <= Z.pos m * 2 ^ (e - e') <= b.
Proof.
  intros Hmx e' Hmin Hex Hmax Ha Hb.
  destruct (binary_round_aux_spec s mx ex lx Hmx Hmin Hex Hmax)
    as (m1 & Hm1 & Hf & Heq).
  fold e' in Hm1, Hf, Heq. set (n := e' - ex) in *.
  assert (Hpn : 0 < 2 ^ n) by (apply pow2_pos; subst n; lia).
  set (f := mx / 2 ^ n) in *.
  assert (Haf : a <= f) by (apply Z.div_le_lower_bound; lia).
  assert (Hm1b : a <= m1 <= b).
  { destruct Hm1 as [->|[-> Hin]].
    - split; [done|]. apply Z.div_le_upper_bound; lia.
    - split; [lia|]. destruct Hb as [Hlt|[Heqb Hl]].
      + assert (f < b) by (apply Z.div_lt_upper_bound; lia). lia.
      + exfalso. destruct Hin as [Hmod|Hl']; [|done].
        apply Hmod. rewrite Heqb. apply Z.mod_mul. lia. }
  assert (Hm1r : 2 ^ 52 <= m1 <= 2 ^ 53) by (destruct Hm1 as [->|[-> _]]; lia).
  destruct (Z.ltb_spec m1 (2 ^ 53)) as [Hlt|Hge].
  - exists (Z.to_pos m1), e'. rewrite Z2Pos.id by lia.
    rewrite Z.sub_diag, Z.mul_1_r. repeat split; try done; lia.
  - exists (Z.to_pos (2 ^ 52)), (e' + 1).
    replace (e' + 1 - e') with 1 by lia.
    change (Z.pos (Z.to_pos (2 ^ 52)) * 2 ^ 1) with (2 ^ 53).
    repeat split; try done; lia.
Qed.

Lemma new_location_exact (nb r : Z) : r = 0 -> new_location nb r = loc_Exact.
Proof.
  intros ->. unfold new_location, new_location_even, new_location_odd.
  by destruct (Z.even nb).
Qed.

Lemma normal_mantissa_bounds (z : Z) :
  0 < z < 2 ^ 53 -> 2 ^ 52 <= z * 2 ^ (53 - Zdigits2 z) < 2 ^ 53.
Proof.
  intros Hz. pose proof (Zdigits2_le_53 z Hz) as Hd.
  pose proof (Zdigits2_bounds z ltac:(lia)) as [Hl Hu].
  assert (Hp : 0 < 2 ^ (53 - Zdigits2 z)) by (apply pow2_pos; lia).
  replace 52 with ((Zdigits2 z - 1) + (53 - Zdigits2 z)) at 1 by lia.
  replace 53 with (Zdigits2 z + (53 - Zdigits2 z)) at 4 by lia.
  rewrite !pow2_split by lia. split.
  - apply Z.mul_le_mono_nonneg_r; lia.
  - apply Z.mul_lt_mono_pos_r; lia.
Qed.

(** *** Bounds on quotients, sums and [Round] *)

Lemma Zdigits2_mono (a c : Z) : 0 < a -> a <= c -> Zdigits2 a <= Zdigits2 c.
Proof.
  intros Ha Hc. pose proof (Zdigits2_bounds a Ha) as [Hl _].
  pose proof (Zdigits2_bounds c ltac:(lia)) as [_ Hu].
  destruct (Z.le_gt_cases (Zdigits2 a) (Zdigits2 c)) as [|Hgt]; [done|exfalso].
  assert (2 ^ Zdigits2 c <= 2 ^ (Zdigits2 a - 1)) by (apply Z.pow_le_mono_r; lia).
  lia.
Qed.

Lemma rescale_bound (m e e' p t : Z) :
  e' <= e <= 0 -> 0 <= t -> t + e' <= 0 ->
  m * 2 ^ (e - e') <= p * 2 ^ (- t - e') -> m * 2 ^ t <= p * 2 ^ (- e).
Proof.
  intros He Ht Hte H.
  assert (Hj : 0 < 2 ^ (e - e')) by (apply pow2_pos; lia).
  assert (E : 2 ^ (- t - e') * 2 ^ t = 2 ^ (- e) * 2 ^ (e - e')).
  { rewrite <- !pow2_split by lia. f_equal. lia. }
  apply (Z.mul_le_mono_pos_r _ _ (2 ^ (e - e'))); [done|].
  replace (p * 2 ^ (- e) * 2 ^ (e - e')) with (p * (2 ^ (- t - e') * 2 ^ t))
    by (rewrite E; ring).
  assert (0 < 2 ^ t) by (apply pow2_pos; lia). nia.
Qed.

Lemma div_normal_le (s : bool) (a c p t : Z) :
  0 < a -> a < c -> c < 2 ^ 53 -> 0 <= t <= 52 -> 0 < p ->
  a * 2 ^ t <= p * c ->
  exists (m : positive) (e : Z),
    div (normal s a 0) (normal false c 0) = S754_finite s m e /\
    2 ^ 52 <= Z.pos m < 2 ^ 53 /\
    -1074 <= e <= -52 /\
    Z.pos m * 2 ^ t <= p * 2 ^ (- e).
Proof.
  intros Ha Hac Hc Ht Hp Hle.
  pose proof (Zdigits2_le_53 a ltac:(lia)) as Hda.
  pose proof (Zdigits2_le_53 c ltac:(lia)) as Hdc.
  pose proof (Zdigits2_mono a c Ha ltac:(lia)) as Hdac.
  pose proof (normal_mantissa_bounds a ltac:(lia)) as Hma.
  pose proof (normal_mantissa_bounds c ltac:(lia)) as Hmc.
  unfold div, SFdiv, normal, SFdiv_core_binary.
  rewrite !normal_mantissa by lia.
  rewrite !Zdigits2_mul_pow2 by lia.
  set (m1 := a * 2 ^ (53 - Zdigits2 a)) in *.
  set (m2 := c * 2 ^ (53 - Zdigits2 c)) in *.
  replace (Zdigits2 a + (53 - Zdigits2 a) + (0 + Zdigits2 a - 53)
           - (Zdigits2 c + (53 - Zdigits2 c) + (0 + Zdigits2 c - 53)))
    with (Zdigits2 a - Zdigits2 c) by lia.
  rewrite fexp_normal by lia.
  replace (0 + Zdigits2 a - 53 - (0 + Zdigits2 c - 53))
    with (Zdigits2 a - Zdigits2 c) by lia.
  rewrite Z.min_l by lia.
  replace (Zdigits2 a - Zdigits2 c - (Zdigits2 a - Zdigits2 c - 53)) with 53 by lia.
  cbv iota. rewrite xorb_false_r, Z.shiftl_mul_pow2 by lia.
  destruct (Z.div_eucl (m1 * 2 ^ 53) m2) as [qz r] eqn:Hdiv.
  assert (Hqz : qz = m1 * 2 ^ 53 / m2) by (unfold Z.div; by rewrite Hdiv).
  assert (Hr : r = (m1 * 2 ^ 53) mod m2) by (unfold Z.modulo; by rewrite Hdiv).
  clear Hdiv.
  pose proof (Z.div_mod (m1 * 2 ^ 53) m2 ltac:(lia)) as Hdm.
  pose proof (Z.mod_pos_bound (m1 * 2 ^ 53) m2 ltac:(lia)) as Hrb.
  rewrite <- Hqz, <- Hr in Hdm. rewrite <- Hr in Hrb.
  assert (Hqlo : 2 ^ 52 <= qz) by (rewrite Hqz; apply Z.div_le_lower_bound; lia).
  assert (Hqhi : qz < 2 ^ 54) by (rewrite Hqz; apply Z.div_lt_upper_bound; lia).
  set (ed := Zdigits2 a - Zdigits2 c - 53) in *.
  set (ka := 53 - Zdigits2 a) in *. set (kc := 53 - Zdigits2 c) in *.
  assert (Hed : ed = kc - ka - 53) by (subst ed ka kc; lia).
  set (Bq := p * 2 ^ (53 + ka - kc - t)).
  assert (Hpka : 0 < 2 ^ ka) by (apply pow2_pos; lia).
  assert (Hpkc : 0 < 2 ^ kc) by (apply pow2_pos; lia).
  assert (Hpt : 0 < 2 ^ t) by (apply pow2_pos; lia).
  assert (HpW : 0 < 2 ^ (53 + ka - kc - t)) by (apply pow2_pos; lia).
  assert (Hbound : m1 * 2 ^ 53 <= m2 * Bq).
  { assert (E : 2 ^ ka * 2 ^ 53 = 2 ^ kc * 2 ^ (53 + ka - kc - t) * 2 ^ t).
    { rewrite <- !pow2_split by lia. f_equal. lia. }
    subst m1 m2 Bq. set (W := 2 ^ (53 + ka - kc - t)) in *.
    apply (Z.mul_le_mono_pos_r _ _ (2 ^ t)); [done|].
    replace (a * 2 ^ ka * 2 ^ 53 * 2 ^ t) with (a * 2 ^ t * (2 ^ ka * 2 ^ 53)) by ring.
    replace (c * 2 ^ kc * (p * W) * 2 ^ t) with (p * c * (2 ^ kc * W * 2 ^ t)) by ring.
    rewrite E. apply Z.mul_le_mono_nonneg_r; [|done].
    apply Z.lt_le_incl. repeat apply Z.mul_pos_pos; done. }
  assert (Hqle : qz <= Bq) by (rewrite Hqz; apply Z.div_le_upper_bound; lia).
  assert (Hloc : qz < Bq \/ (qz = Bq /\ new_location m2 r = loc_Exact)).
  { destruct (Z.eq_dec qz Bq) as [Heq|Hne]; [right|left; lia].
    split; [done|]. apply new_location_exact. rewrite Heq in Hdm. lia. }
  assert (Hdq : 53 <= Zdigits2 qz <= 54 /\ Zdigits2 qz + ed - 53 <= -53).
  { destruct (Z.lt_ge_cases qz (2 ^ 53)) as [Hlt|Hge].
    - rewrite (Zdigits2_unique qz 53); lia.
    - rewrite (Zdigits2_unique qz 54) by lia. split; [lia|].
      destruct (Z.eq_dec ka kc) as [Heq|Hne]; [exfalso|lia].
      assert (m1 < m2) by (subst m1 m2; rewrite Heq; nia).
      assert (qz < 2 ^ 53); [|lia].
      rewrite Hqz. apply Z.div_lt_upper_bound; lia. }
  destruct Hdq as [Hdq Her]. set (er := Zdigits2 qz + ed - 53) in *.
  assert (HBq : Bq = p * 2 ^ (- t - er) * 2 ^ (er - ed)).
  { subst Bq. rewrite <- Z.mul_assoc, <- pow2_split by lia. f_equal. f_equal. lia. }
  pose proof (binary_round_aux_sandwich s qz ed (new_location m2 r)
                0 (p * 2 ^ (- t - er)) ltac:(lia)) as Hs.
  cbv zeta in Hs. fold er in Hs. rewrite <- HBq in Hs.
  destruct (Hs ltac:(lia) ltac:(lia) ltac:(lia) ltac:(lia) Hloc)
    as (m & e & -> & Hm & He & Hval).
  exists m, e. split; [done|]. split; [done|]. split; [lia|].
  apply (rescale_bound _ e er); lia.
Qed.

Lemma shl_align_noop (mx : positive) (ex ex' : Z) :
  ex <= ex' -> shl_align mx ex ex' = (mx, ex).
Proof. intros H. unfold shl_align. destruct (ex' - ex) eqn:E; try done; lia. Qed.

Lemma binary_normalize_signed (s : bool) (z e : Z) :
  0 < z ->
  binary_normalize prec emax (cond_Zopp s z) e false
  = binary_round prec emax s (Z.to_pos z) e.
Proof. intros Hz. destruct z; try lia. by destruct s. Qed.

Lemma cond_Zopp_add (s : bool) (x y : Z) :
  cond_Zopp s x + cond_Zopp s y = cond_Zopp s (x + y).
Proof. destruct s; simpl; lia. Qed.

Lemma add_normal_le (s : bool) (a : Z) (mq : positive) (eq p t : Z) :
  0 < a < 2 ^ 28 -> 2 ^ 52 <= Z.pos mq < 2 ^ 53 -> -1074 <= eq ->
  0 <= t <= 24 -> 0 < p <= 2 ^ t ->
  Z.pos mq * 2 ^ t <= p * 2 ^ (- eq) ->
  exists (m : positive) (e : Z),
    add (normal s a 0) (S754_finite s mq eq) = S754_finite s m e /\
    e < 0 /\
    a * 2 ^ (- e) <= Z.pos m /\
    Z.pos m * 2 ^ t <= (a * 2 ^ t + p) * 2 ^ (- e).
Proof.
  intros Ha Hmq Heq Ht Hp Hq.
  pose proof (Zdigits2_le_53 a ltac:(lia)) as Hda.
  assert (Hpt : 0 < 2 ^ t) by (apply pow2_pos; lia).
  (* the quotient is at most one, so its exponent is at most -52 *)
  assert (Heq52 : eq <= -52).
  { destruct (Z.le_gt_cases eq (-52)) as [|Hgt]; [done|exfalso].
    assert (2 ^ (- eq) <= 2 ^ 51) by (apply Z.pow_le_mono_r; lia).
    assert (0 <= 2 ^ (- eq)) by (apply Z.pow_nonneg; lia).
    assert (p * 2 ^ (- eq) <= 2 ^ t * 2 ^ 51) by (apply Z.mul_le_mono_nonneg; lia).
    assert (2 ^ 52 * 2 ^ t <= Z.pos mq * 2 ^ t) by (apply Z.mul_le_mono_nonneg_r; lia).
    lia. }
  assert (HpE : 0 < 2 ^ (- eq)) by (apply pow2_pos; lia).
  assert (Hmq1 : Z.pos mq <= 2 ^ (- eq)) by nia.
  unfold add, SFadd, normal.
  rewrite Z.min_r by lia.
  destruct (shl_align_spec (Z.to_pos (a * 2 ^ (53 - Zdigits2 a)))
              (0 + Zdigits2 a - 53) eq) as (mz1 & -> & Hmz1); [lia|].
  destruct (shl_align_spec mq eq eq) as (mz2 & -> & Hmz2); [lia|].
  cbn [fst]. rewrite Hmz1, Hmz2, normal_mantissa by lia.
  rewrite Z.sub_diag, Z.mul_1_r, cond_Zopp_add.
  rewrite <- Z.mul_assoc, <- pow2_split by lia.
  replace (53 - Zdigits2 a + (0 + Zdigits2 a - 53 - eq)) with (- eq) by lia.
  set (S := a * 2 ^ (- eq) + Z.pos mq).
  assert (HSlo : 2 ^ 52 <= S).
  { assert (2 ^ 52 <= 2 ^ (- eq)) by (apply Z.pow_le_mono_r; lia). subst S. nia. }
  assert (HShi : S < 2 ^ (29 - eq)).
  { replace (29 - eq) with (29 + - eq) by lia. rewrite pow2_split by lia.
    subst S. nia. }
  assert (HdS : 53 <= Zdigits2 S <= 29 - eq).
  { pose proof (Zdigits2_bounds S ltac:(lia)) as [Hl Hu]. split.
    - destruct (Z.le_gt_cases 53 (Zdigits2 S)) as [|Hlt]; [done|exfalso].
      assert (2 ^ Zdigits2 S <= 2 ^ 52) by (apply Z.pow_le_mono_r; lia). lia.
    - destruct (Z.le_gt_cases (Zdigits2 S) (29 - eq)) as [|Hgt]; [done|exfalso].
      assert (2 ^ (29 - eq) <= 2 ^ (Zdigits2 S - 1)) by (apply Z.pow_le_mono_r; lia).
      lia. }
  rewrite binary_normalize_signed by lia.
  unfold binary_round.
  change (Z.pos (digits2_pos (Z.to_pos S))) with (Zdigits2 (Z.pos (Z.to_pos S))).
  rewrite Z2Pos.id by lia. rewrite fexp_normal by lia.
  rewrite shl_align_noop by lia. rewrite Z2Pos.id by lia.
  set (er := Zdigits2 S + eq - 53) in *.
  pose proof (binary_round_aux_sandwich s S eq loc_Exact
                (a * 2 ^ (- er)) ((a * 2 ^ t + p) * 2 ^ (- t - er)) ltac:(lia)) as Hs.
  cbv zeta in Hs. fold er in Hs.
  assert (Hlow : a * 2 ^ (- er) * 2 ^ (er - eq) <= S).
  { rewrite <- Z.mul_assoc, <- pow2_split by lia.
    replace (- er + (er - eq)) with (- eq) by lia. subst S. lia. }
  assert (Hupp : S <= (a * 2 ^ t + p) * 2 ^ (- t - er) * 2 ^ (er - eq)).
  { rewrite <- Z.mul_assoc, <- pow2_split by lia.
    replace (- t - er + (er - eq)) with (- t - eq) by lia.
    assert (E : 2 ^ (- t - eq) * 2 ^ t = 2 ^ (- eq)).
    { rewrite <- pow2_split by lia. f_equal. lia. }
    assert (0 < 2 ^ (- t - eq)) by (apply pow2_pos; lia).
    apply (Z.mul_le_mono_pos_r _ _ (2 ^ t)); [done|].
    replace ((a * 2 ^ t + p) * 2 ^ (- t - eq) * 2 ^ t)
      with ((a * 2 ^ t + p) * (2 ^ (- t - eq) * 2 ^ t)) by ring.
    rewrite E. subst S. nia. }
  destruct (Hs ltac:(lia) ltac:(lia) ltac:(lia) Hlow) as (m & e & -> & Hm & He & Hval).
  { destruct (Z.eq_dec S ((a * 2 ^ t + p) * 2 ^ (- t - er) * 2 ^ (er - eq)));
      [right; done|left; lia]. }
  exists m, e. split; [done|]. split; [lia|]. split.
  - assert (Hj : 0 < 2 ^ (e - er)) by (apply pow2_pos; lia).
    assert (E : 2 ^ (- er) = 2 ^ (- e) * 2 ^ (e - er)).
    { rewrite <- pow2_split by lia. f_equal. lia. }
    rewrite E in Hval. nia.
  - apply (rescale_bound _ e er); lia.
Qed.

Lemma Round_finite_between (s : bool) (m : positive) (e k : Z) :
  e < 0 -> 0 <= k ->
  k * 2 ^ (- e) <= Z.pos m <= (k + 1) * 2 ^ (- e) ->
  exists k',
    (k' = k \/ k' = k + 1) /\
    (Z.pos m * 8 <= (8 * k + 3) * 2 ^ (- e) -> k' = k) /\
    Round (S754_finite s m e) = signed_int s k'.
Proof.
  intros He Hk [Hlo Hhi]. unfold Round.
  destruct (Z.leb_spec 0 e) as [|_]; [lia|].
  set (P := 2 ^ (- e)) in *.
  assert (HP : 0 < P) by (apply pow2_pos; lia).
  destruct (Z.eq_dec (Z.pos m) ((k + 1) * P)) as [Heq|Hne].
  - exists (k + 1). rewrite Heq, Z.div_mul, Z.mod_mul by lia.
    destruct (Z.leb_spec P (2 * 0)); [lia|].
    split; [by right|]. split; [nia|]. done.
  - assert (Hdiv : Z.pos m / P = k).
    { symmetry. apply (Z.div_unique_pos _ _ k (Z.pos m - k * P)); lia. }
    assert (Hmod : Z.pos m mod P = Z.pos m - k * P).
    { symmetry. apply (Z.mod_unique_pos _ _ k (Z.pos m - k * P)); lia. }
    rewrite Hdiv, Hmod.
    destruct (Z.leb_spec P (2 * (Z.pos m - k * P))) as [Hup|Hdown].
    + exists (k + 1). split; [by right|]. split; [nia|]. done.
    + exists k. split; [by left|]. split; [done|]. done.
Qed.

Lemma to_int64_signed_times_60 (s : bool) (k : Z) :
  0 <= k -> 60 * k < 2 ^ 53 ->
  to_int64 (mul (signed_int s k) (of_int 60)) = cond_Zopp s (60 * k).
Proof.
  intros Hk Hk60. rewrite (of_int_pos 60) by lia.
  destruct (Z.eq_dec k 0) as [->|Hne].
  - by destruct s.
  - rewrite signed_int_normal, mul_normal, to_int64_normal by lia.
    rewrite xorb_false_r. f_equal. lia.
Qed.

End Float64Facts.

(** ** Durations *)

Module DurationFacts.
Import Float64 Duration Float64Facts.
Local Open Scope Z_scope.

Lemma wrap64_id (z : Z) : in_int64 z -> wrap64 z = z.
Proof.
  unfold in_int64, minInt64, maxInt64, wrap64. intros Hz.
  rewrite Z.mod_small; lia.
Qed.

Lemma wrap64_in_int64 (z : Z) : in_int64 (wrap64 z).
Proof.
  unfold in_int64, minInt64, maxInt64, wrap64.
  pose proof (Z.mod_pos_bound (z + 2 ^ 63) (2 ^ 64) ltac:(lia)). lia.
Qed.

(** [float64(z)] for a small integer, by sign. *)
Lemma of_int_cases (z : Z) :
  - 2 ^ 53 < z < 2 ^ 53 ->
  (z = 0 /\ of_int z = S754_zero false) \/
  (0 < z /\ of_int z = normal false z 0) \/
  (z < 0 /\ of_int z = normal true (- z) 0).
Proof.
  intros Hz. destruct (Z.lt_trichotomy z 0) as [Hn|[->|Hp]].
  - right. right. split; [done|].
    rewrite <- (Z.opp_involutive z) at 1. apply of_int_neg. lia.
  - left. done.
  - right. left. split; [done|]. apply of_int_pos. lia.
Qed.

Lemma to_int64_of_int (z : Z) : - 2 ^ 53 < z < 2 ^ 53 -> to_int64 (of_int z) = z.
Proof.
  intros Hz. destruct (of_int_cases z Hz) as [[-> ->]|[[Hp ->]|[Hn ->]]].
  - done.
  - rewrite to_int64_normal by lia. done.
  - rewrite to_int64_normal by lia. simpl. lia.
Qed.

Lemma Round_of_int (z : Z) : - 2 ^ 53 < z < 2 ^ 53 -> Round (of_int z) = of_int z.
Proof.
  intros Hz. destruct (of_int_cases z Hz) as [[-> ->]|[[Hp ->]|[Hn ->]]].
  - done.
  - apply Round_normal. lia.
  - apply Round_normal. lia.
Qed.

Lemma to_int64_times_60 (k : Z) :
  - 2 ^ 53 < 60 * k < 2 ^ 53 ->
  to_int64 (mul (of_int k) (of_int 60)) = 60 * k.
Proof.
  intros Hk. rewrite (of_int_pos 60) by lia.
  destruct (of_int_cases k ltac:(lia)) as [[-> ->]|[[Hp ->]|[Hn ->]]].
  - done.
  - rewrite mul_normal, to_int64_normal by lia. simpl. lia.
  - rewrite mul_normal, to_int64_normal by lia. simpl. lia.
Qed.

Lemma add_zero_r (z : Z) :
  - 2 ^ 53 < z < 2 ^ 53 -> add (of_int z) (S754_zero false) = of_int z.
Proof.
  intros Hz. by destruct (of_int_cases z Hz) as [[-> ->]|[[Hp ->]|[Hn ->]]].
Qed.

(** On whole minutes [Minutes] is the exact count. *)
Lemma Minutes_whole (m : Z) :
  - 2 ^ 53 < m < 2 ^ 53 -> Minutes (m * Minute) = of_int m.
Proof.
  intros Hm. unfold Minutes.
  rewrite Z.quot_mul, Z.rem_mul by done.
  change (div (of_int 0) (of_int 60000000000)) with (S754_zero false).
  by apply add_zero_r.
Qed.

(** On whole seconds [Seconds] is the exact count. *)
Lemma Seconds_whole (s : Z) :
  - 2 ^ 53 < s < 2 ^ 53 -> Seconds (s * Second) = of_int s.
Proof.
  intros Hs. unfold Seconds.
  rewrite Z.quot_mul, Z.rem_mul by done.
  change (div (of_int 0) (of_int 1000000000)) with (S754_zero false).
  by apply add_zero_r.
Qed.

Lemma whole_multiple (d unit : Z) :
  0 < unit -> d mod unit = 0 -> d = (d / unit) * unit.
Proof.
  intros Hu Hd. rewrite Z.mul_comm. apply Z.div_exact; lia.
Qed.

Lemma to_int64_Seconds_whole (d : Duration) :
  in_int64 d -> d mod Second = 0 -> to_int64 (Seconds d) = d / Second.
Proof.
  unfold in_int64, minInt64, maxInt64. intros Hd Hs.
  pose proof (whole_multiple d Second ltac:(done) Hs) as Hd'.
  unfold Second in *. set (s := d / 1000000000) in *.
  rewrite Hd'. change (s * 1000000000) with (s * Second).
  rewrite Seconds_whole by lia. apply to_int64_of_int. lia.
Qed.

Lemma roundToClosestMinute_whole (d : Duration) :
  in_int64 d -> d mod Minute = 0 -> roundToClosestMinute d = d.
Proof.
  unfold in_int64, minInt64, maxInt64. intros Hd Hm.
  pose proof (whole_multiple d Minute ltac:(done) Hm) as Hd'.
  unfold roundToClosestMinute, dmul.
  unfold Minute, Second in *. change (60 * 1000000000) with 60000000000 in *.
  set (m := d / 60000000000) in *.
  rewrite Hd' at 1. change (m * 60000000000) with (m * Minute).
  rewrite Minutes_whole, Round_of_int, to_int64_times_60 by lia.
  replace (1000000000 * (60 * m)) with d by lia.
  apply wrap64_id. unfold in_int64, minInt64, maxInt64. lia.
Qed.


Lemma of_int_signed (s : bool) (z : Z) :
  0 < z < 2 ^ 53 -> of_int (cond_Zopp s z) = normal s z 0.
Proof. intros Hz. destruct s; simpl; [by apply of_int_neg|by apply of_int_pos]. Qed.

Lemma Minutes_signed (s : bool) (a : Z) :
  0 <= a ->
  Minutes (cond_Zopp s a) =
    add (of_int (cond_Zopp s (a / Minute)))
        (div (of_int (cond_Zopp s (a mod Minute))) (of_int 60000000000)).
Proof.
  intros Ha. unfold Minutes. destruct s; simpl cond_Zopp.
  - rewrite Z.quot_opp_l, Z.rem_opp_l by done.
    rewrite Z.quot_div_nonneg, Z.rem_mod_nonneg by done. done.
  - rewrite Z.quot_div_nonneg, Z.rem_mod_nonneg by done. done.
Qed.

(** The minute count [mm + n/Minute], rounded: [p / 2^t] bounds the
    fraction from above. *)
Lemma Round_minutes_fraction (s : bool) (mm n p t : Z) :
  0 <= mm < 2 ^ 28 -> 0 < n < 60000000000 ->
  0 <= t <= 24 -> 0 < p <= 2 ^ t -> n * 2 ^ t <= p * 60000000000 ->
  exists k,
    (k = mm \/ k = mm + 1) /\
    (8 * p <= 3 * 2 ^ t -> k = mm) /\
    Round (add (of_int (cond_Zopp s mm))
               (div (of_int (cond_Zopp s n)) (of_int 60000000000)))
    = signed_int s k.
Proof.
  intros Hmm Hn Ht Hp Hfrac.
  assert (Hpt : 0 < 2 ^ t) by (apply pow2_pos; lia).
  rewrite (of_int_signed s n), (of_int_pos 60000000000) by lia.
  destruct (div_normal_le s n 60000000000 p t)
    as (mq & eq & -> & Hmq & Heq & Hq); try lia.
  assert (HpE : 0 < 2 ^ (- eq)) by (apply pow2_pos; lia).
  destruct (Z.eq_dec mm 0) as [->|Hne].
  - replace (of_int (cond_Zopp s 0)) with (S754_zero false) by (by destruct s).
    change (add (S754_zero false) (S754_finite s mq eq)) with (S754_finite s mq eq).
    destruct (Round_finite_between s mq eq 0) as (k & Hk & Hfine & ->);
      [lia|lia|nia|].
    exists k. split; [done|]. split; [|done]. intros H8. apply Hfine. nia.
  - rewrite (of_int_signed s mm) by lia.
    destruct (add_normal_le s mm mq eq p t)
      as (m & e & -> & He & Hlo & Hhi); try lia.
    assert (HpE' : 0 < 2 ^ (- e)) by (apply pow2_pos; lia).
    destruct (Round_finite_between s m e mm) as (k & Hk & Hfine & ->);
      [lia|lia|nia|].
    exists k. split; [done|]. split; [|done]. intros H8. apply Hfine.
    apply (Z.mul_le_mono_pos_r _ _ (2 ^ t)); [done|]. nia.
Qed.

Lemma rounded_minutes (s : bool) (a : Z) :
  0 <= a <= 2 ^ 63 ->
  exists k,
    (k = a / Minute \/ k = a / Minute + 1) /\
    (a mod Minute <= 22500000000 -> k = a / Minute) /\
    to_int64 (mul (Round (Minutes (cond_Zopp s a))) (of_int 60))
    = cond_Zopp s (60 * k).
Proof.
  intros Ha. rewrite Minutes_signed by lia.
  pose proof (Z.mod_pos_bound a Minute ltac:(done)) as Hn.
  assert (Hmm : 0 <= a / Minute <= 153722867).
  { split; [apply Z.div_pos; [lia|done]|].
    apply Z.lt_succ_r. apply Z.div_lt_upper_bound; [done|]. unfold Minute, Second. lia. }
  set (mm := a / Minute) in *. set (n := a mod Minute) in *.
  unfold Minute, Second in Hn. change (60 * 1000000000) with 60000000000 in Hn.
  destruct (Z.eq_dec n 0) as [Hn0|Hn0].
  - exists mm. split; [by left|]. split; [done|]. rewrite Hn0.
    replace (of_int (cond_Zopp s 0)) with (of_int 0) by (by destruct s).
    change (div (of_int 0) (of_int 60000000000)) with (S754_zero false).
    assert (Hs : - 2 ^ 53 < cond_Zopp s mm < 2 ^ 53) by (destruct s; simpl; lia).
    rewrite add_zero_r, Round_of_int, to_int64_times_60 by (destruct s; simpl in *; lia).
    destruct s; simpl; lia.
  - destruct (Z.le_gt_cases n 22500000000) as [Hfine|Hcoarse].
    + destruct (Round_minutes_fraction s mm n 3 3) as (k & Hk & Hk3 & ->);
        try lia.
      exists k. split; [done|]. split; [intros _; apply Hk3; lia|].
      apply to_int64_signed_times_60; lia.
    + destruct (Round_minutes_fraction s mm n 1 0) as (k & Hk & _ & ->);
        try lia.
      exists k. split; [done|]. split; [lia|].
      apply to_int64_signed_times_60; lia.
Qed.

Lemma roundToClosestMinute_signed (s : bool) (a : Z) :
  0 <= a <= 2 ^ 63 ->
  exists k,
    (k = a / Minute \/ k = a / Minute + 1) /\
    (a mod Minute <= 22500000000 -> k = a / Minute) /\
    0 <= k * Minute <= 9223372020000000000 /\
    roundToClosestMinute (cond_Zopp s a) = cond_Zopp s (k * Minute).
Proof.
  intros Ha. destruct (rounded_minutes s a Ha) as (k & Hk & Hfine & Hto).
  pose proof (Z.mod_pos_bound a Minute ltac:(done)) as Hn.
  pose proof (Z.div_mod a Minute ltac:(done)) as Hdm.
  assert (Hmm : 0 <= a / Minute) by (apply Z.div_pos; [lia|done]).
  exists k. split; [done|]. split; [done|].
  assert (Hkb : 0 <= k * Minute <= 9223372020000000000).
  { unfold Minute, Second in *. change (60 * 1000000000) with 60000000000 in *.
    destruct (Z.le_gt_cases (a mod 60000000000) 22500000000) as [Hf|Hc].
    - rewrite (Hfine Hf). lia.
    - lia. }
  split; [done|].
  unfold roundToClosestMinute, dmul. rewrite Hto.
  replace (Second * cond_Zopp s (60 * k)) with (cond_Zopp s (k * Minute))
    by (unfold Minute; destruct s; simpl; lia).
  apply wrap64_id. unfold in_int64, minInt64, maxInt64. destruct s; simpl; lia.
Qed.

(** Rounding to the closest minute always yields a whole number of
    minutes of the same sign, within a minute of the argument, and never
    leaves the [int64] range. *)
Lemma roundToClosestMinute_multiple (d : Duration) :
  in_int64 d ->
  exists k,
    roundToClosestMinute d = k * Minute /\
    in_int64 (k * Minute) /\
    Z.abs (k * Minute) <= 9223372020000000000 /\
    Z.abs (k * Minute - d) <= Minute /\
    (0 <= d -> 0 <= k) /\ (d <= 0 -> k <= 0).
Proof.
  unfold in_int64, minInt64, maxInt64. intros Hd.
  destruct (Z.le_gt_cases 0 d) as [Hpos|Hneg].
  - destruct (roundToClosestMinute_signed false d ltac:(lia))
      as (k & Hk & Hfine & Hkb & Hr).
    pose proof (Z.mod_pos_bound d Minute ltac:(done)) as Hn.
    pose proof (Z.div_mod d Minute ltac:(done)) as Hdm.
    simpl in Hr. exists k. split; [done|].
    unfold Minute, Second in *. change (60 * 1000000000) with 60000000000 in *.
    repeat split; try lia.
  - destruct (roundToClosestMinute_signed true (- d) ltac:(lia))
      as (k & Hk & _ & Hkb & Hr).
    pose proof (Z.mod_pos_bound (- d) Minute ltac:(done)) as Hn.
    pose proof (Z.div_mod (- d) Minute ltac:(done)) as Hdm.
    simpl in Hr. rewrite Z.opp_involutive in Hr.
    exists (- k). rewrite Z.mul_opp_l. split; [done|].
    unfold Minute, Second in *. change (60 * 1000000000) with 60000000000 in *.
    repeat split; try lia.
Qed.

End DurationFacts.


(** ** The duration policy of the tempo-cloud uploader *)

Section DurationPolicyFacts.
Import Float64 Duration Worklog Client TempoCloud DurationFacts.
Local Open Scope Z_scope.
Variable formatDate : Time -> string.
Variable formatTime : Time -> string.

Local Abbreviation uploadEntry := (makeUploadEntry formatDate formatTime).

Lemma BillableSeconds_makeUploadEntry entry issue opts :
  BillableSeconds (uploadEntry entry issue opts)
  = wholeSeconds (postBillable opts entry).
Proof.
  unfold makeUploadEntry, postBillable.
  by destruct (durationPolicy opts entry) as [[b u] t].
Qed.

Lemma TimeSpentSeconds_makeUploadEntry entry issue opts :
  TimeSpentSeconds (uploadEntry entry issue opts)
  = wholeSeconds (postTotal opts entry).
Proof.
  unfold makeUploadEntry, postTotal.
  by destruct (durationPolicy opts entry) as [[b u] t].
Qed.

Lemma dadd_0_r (x : Duration) : in_int64 x -> dadd x 0 = x.
Proof. intros Hx. unfold dadd. rewrite Z.add_0_r. by apply wrap64_id. Qed.

Lemma dadd_0_l (x : Duration) : in_int64 x -> dadd 0 x = x.
Proof. intros Hx. unfold dadd. by apply wrap64_id. Qed.

Lemma dadd_comm (x y : Duration) : dadd x y = dadd y x.
Proof. unfold dadd. by rewrite Z.add_comm. Qed.

Lemma dadd_in_int64 (x y : Duration) : in_int64 (dadd x y).
Proof. apply wrap64_in_int64. Qed.

Lemma roundToClosestMinute_0 : roundToClosestMinute 0 = 0.
Proof. reflexivity. Qed.

Lemma roundToClosestMinute_in_int64 (d : Duration) :
  in_int64 d -> in_int64 (roundToClosestMinute d).
Proof.
  intros Hd. destruct (roundToClosestMinute_multiple d Hd) as (k & -> & Hk & _).
  exact Hk.
Qed.

Lemma roundToClosestMinute_twice (d : Duration) :
  in_int64 d ->
  roundToClosestMinute (roundToClosestMinute d) = roundToClosestMinute d.
Proof.
  intros Hd. destruct (roundToClosestMinute_multiple d Hd) as (k & -> & Hk & _).
  apply roundToClosestMinute_whole; [done|]. apply Z.mod_mul. done.
Qed.

Lemma wholeSeconds_multiple (k : Z) :
  in_int64 (k * Second) -> wholeSeconds (k * Second) = k.
Proof.
  intros Hk. unfold wholeSeconds.
  rewrite to_int64_Seconds_whole; [|done|by apply Z.mod_mul].
  by apply Z.div_mul.
Qed.

Lemma wholeSeconds_add (x y : Duration) :
  in_int64 x -> in_int64 y -> in_int64 (x + y) ->
  x mod Second = 0 -> y mod Second = 0 ->
  wholeSeconds (x + y) = wholeSeconds x + wholeSeconds y.
Proof.
  intros Hx Hy Hxy Hxs Hys.
  pose proof (whole_multiple x Second ltac:(done) Hxs) as Ex.
  pose proof (whole_multiple y Second ltac:(done) Hys) as Ey.
  set (kx := x / Second) in *. set (ky := y / Second) in *.
  clearbody kx ky. subst x y. rewrite <- Z.mul_add_distr_r in *.
  by rewrite !wholeSeconds_multiple.
Qed.

Lemma policy_total_is_wrapped_sum opts entry :
  postTotal opts entry
  = dadd (postBillable opts entry) (postUnbillable opts entry).
Proof.
  unfold postTotal, postBillable, postUnbillable, durationPolicy.
  destruct (TreatDurationAsBilled opts), (RoundToClosestMinute opts); simpl;
    try done.
  rewrite dadd_0_r by apply dadd_in_int64. apply dadd_comm.
Qed.

(** C4, as the code has it.  The three durations kept by the policy always
    satisfy total = billable + unbillable in [int64] arithmetic.  The
    whole seconds sent to Tempo add up as well as soon as that sum does not
    overflow and no fraction of a second is cut off: one of the two flags
    is set, or both durations of the entry are whole seconds. *)
Theorem transmitted_total_is_sum_of_components entry issue opts :
  0 <= BillableDuration entry <= maxInt64 ->
  0 <= UnbillableDuration entry <= maxInt64 ->
  postTotal opts entry
  = dadd (postBillable opts entry) (postUnbillable opts entry) /\
  (postBillable opts entry + postUnbillable opts entry <= maxInt64 ->
   RoundToClosestMinute opts = true \/ TreatDurationAsBilled opts = true \/
   (BillableDuration entry mod Second = 0 /\
    UnbillableDuration entry mod Second = 0) ->
   TimeSpentSeconds (uploadEntry entry issue opts)
   = BillableSeconds (uploadEntry entry issue opts)
     + wholeSeconds (postUnbillable opts entry)).
Proof.
  intros Hb Hu. split; [apply policy_total_is_wrapped_sum|].
  rewrite BillableSeconds_makeUploadEntry, TimeSpentSeconds_makeUploadEntry.
  assert (Hbi : in_int64 (BillableDuration entry))
    by (unfold in_int64, minInt64, maxInt64 in *; lia).
  assert (Hui : in_int64 (UnbillableDuration entry))
    by (unfold in_int64, minInt64, maxInt64 in *; lia).
  unfold postTotal, postBillable, postUnbillable, durationPolicy.
  destruct (TreatDurationAsBilled opts) eqn:Hfold,
    (RoundToClosestMinute opts) eqn:Hround; simpl; intros Hsum Hwhole.
  - rewrite roundToClosestMinute_0, dadd_0_r
      by (apply roundToClosestMinute_in_int64, dadd_in_int64).
    change (wholeSeconds 0) with 0. lia.
  - rewrite (dadd_comm (BillableDuration entry)).
    change (wholeSeconds 0) with 0. lia.
  - destruct (roundToClosestMinute_multiple _ Hbi) as (kb & Hkb & Hkbi & _ & _ & Hkb0 & _).
    destruct (roundToClosestMinute_multiple _ Hui) as (ku & Hku & Hkui & _ & _ & Hku0 & _).
    rewrite Hkb, Hku in *.
    assert (Hs : in_int64 (kb * Minute + ku * Minute)).
    { unfold in_int64, minInt64, maxInt64, Minute, Second in *. lia. }
    unfold dadd. rewrite wrap64_id by done.
    apply wholeSeconds_add; try done; unfold Minute;
      rewrite Z.mul_assoc; by apply Z.mod_mul.
  - destruct Hwhole as [?|[?|[Hbs Hus]]]; try done.
    assert (Hs : in_int64 (BillableDuration entry + UnbillableDuration entry)).
    { unfold in_int64, minInt64, maxInt64 in *. lia. }
    unfold dadd. rewrite wrap64_id by done.
    by apply wholeSeconds_add.
Qed.

(** C8: rounding to the closest minute leaves every whole number of
    minutes unchanged; rounding twice is rounding once; and so is applying
    the whole policy to its own output, whatever the flags. *)
Theorem rounding_to_minute_is_idempotent (d : Duration) opts entry :
  in_int64 d ->
  in_int64 (BillableDuration entry) ->
  in_int64 (UnbillableDuration entry) ->
  (d mod Minute = 0 -> roundToClosestMinute d = d) /\
  roundToClosestMinute (roundToClosestMinute d) = roundToClosestMinute d /\
  durationPolicy opts
    (setDurations entry (postBillable opts entry) (postUnbillable opts entry))
  = durationPolicy opts entry.
Proof.
  intros Hd Hb Hu. split; [by apply roundToClosestMinute_whole|].
  split; [by apply roundToClosestMinute_twice|].
  unfold postBillable, postUnbillable, durationPolicy.
  destruct (TreatDurationAsBilled opts), (RoundToClosestMinute opts); simpl.
  - rewrite roundToClosestMinute_0, dadd_0_l
      by (apply roundToClosestMinute_in_int64, dadd_in_int64).
    by rewrite roundToClosestMinute_twice by apply dadd_in_int64.
  - rewrite dadd_0_l, dadd_0_r by apply dadd_in_int64.
    by rewrite (dadd_comm (BillableDuration entry)).
  - by rewrite !roundToClosestMinute_twice.
  - done.
Qed.


(** C3: with rounding alone, half a minute goes up and anything below
    goes down, for either component and away from zero: 30 s are sent as
    60 s and 29 s as 0 s. *)
Theorem rounding_is_half_up_at_30_seconds entry issue opts :
  TreatDurationAsBilled opts = false ->
  RoundToClosestMinute opts = true ->
  (BillableDuration entry = 0 -> UnbillableDuration entry = 30 * Second ->
   BillableSeconds (uploadEntry entry issue opts) = 0 /\
   TimeSpentSeconds (uploadEntry entry issue opts) = 60) /\
  (BillableDuration entry = 0 -> UnbillableDuration entry = 29 * Second ->
   BillableSeconds (uploadEntry entry issue opts) = 0 /\
   TimeSpentSeconds (uploadEntry entry issue opts) = 0) /\
  (BillableDuration entry = 30 * Second ->
   BillableSeconds (uploadEntry entry issue opts) = 60) /\
  (BillableDuration entry = 29 * Second ->
   BillableSeconds (uploadEntry entry issue opts) = 0) /\
  roundToClosestMinute (30 * Second) = 60 * Second /\
  roundToClosestMinute (29 * Second) = 0 /\
  roundToClosestMinute (- 30 * Second) = - 60 * Second /\
  roundToClosestMinute (- 29 * Second) = 0.
Proof.
  intros Hfold Hround.
  rewrite BillableSeconds_makeUploadEntry, TimeSpentSeconds_makeUploadEntry.
  unfold postTotal, postBillable, postUnbillable, durationPolicy.
  rewrite Hfold, Hround. simpl fst. simpl snd.
  split; [intros -> ->; vm_compute; by split|].
  split; [intros -> ->; vm_compute; by split|].
  split; [intros ->; vm_compute; reflexivity|].
  split; [intros ->; vm_compute; reflexivity|].
  repeat split; vm_compute; reflexivity.
Qed.
End DurationPolicyFacts.

(** ** Task extraction *)

Section TaskExtractionFacts.
Import Worklog Client.
Variable Regexp : Type.
Variable IsRegexSet : Regexp -> bool.
Variable TasksFromSummary : Entry -> Regexp -> list IDNameField.
Variable TasksFromTags : Entry -> list IDNameField -> Regexp -> list IDNameField.
Variable TasksFromProject : Entry -> Regexp -> list IDNameField.

Local Abbreviation extract :=
  (ExtractTasks Regexp IsRegexSet TasksFromSummary TasksFromTags TasksFromProject).
Local Abbreviation summaryRe := (@TaskInSummaryRegex Regexp).
Local Abbreviation tagsRe := (@TagsAsTasksRegex Regexp).
Local Abbreviation projectRe := (@TaskInProjectRegex Regexp).
Local Abbreviation mode := (@MultipleTaskMode Regexp).
Local Abbreviation fromSummary := (Client.fromSummary Regexp IsRegexSet TasksFromSummary).
Local Abbreviation fromTags := (Client.fromTags Regexp IsRegexSet TasksFromTags).
Local Abbreviation fromProject := (Client.fromProject Regexp IsRegexSet TasksFromProject).

Lemma length_eqb_0 {A} (l : list A) :
  Nat.eqb (length l) 0 = match l with [] => true | _ => false end.
Proof. by destruct l. Qed.

Lemma extract_split e tags opts :
  mode opts = SplitAcrossTasks ->
  extract e tags opts = fromSummary e opts ++ fromTags e tags opts ++ fromProject e opts.
Proof.
  intros Hm. unfold ExtractTasks, Client.fromSummary, Client.fromTags, Client.fromProject.
  rewrite Hm. change (String.eqb SplitAcrossTasks FirstTaskOnly) with false.
  rewrite String.eqb_refl. cbn [orb andb].
  rewrite !andb_true_r.
  destruct (IsRegexSet (summaryRe opts)), (IsRegexSet (tagsRe opts)),
    (IsRegexSet (projectRe opts)); cbn [app]; rewrite ?app_nil_r; try done.
  by rewrite app_assoc.
Qed.

Lemma extract_sequential e tags opts :
  mode opts <> SplitAcrossTasks ->
  extract e tags opts =
    let found :=
      match fromSummary e opts with
      | [] => match fromTags e tags opts with
              | [] => fromProject e opts
              | t :: ts => t :: ts
              end
      | t :: ts => t :: ts
      end in
    if String.eqb (mode opts) FirstTaskOnly && Nat.ltb 1 (length found)
    then take 1 found else found.
Proof.
  intros Hm. apply String.eqb_neq in Hm.
  unfold ExtractTasks, Client.fromSummary, Client.fromTags, Client.fromProject.
  rewrite Hm. cbn [orb app].
  destruct (IsRegexSet (summaryRe opts)); cbn [app length Nat.eqb andb].
  - destruct (TasksFromSummary e (summaryRe opts)) as [|t ts];
      cbn [length Nat.eqb]; rewrite ?andb_false_r, ?andb_true_r; [|done].
    destruct (IsRegexSet (tagsRe opts)); cbn [app length Nat.eqb].
    + destruct (TasksFromTags e tags (tagsRe opts)) as [|t ts];
        cbn [length Nat.eqb]; rewrite ?andb_false_r, ?andb_true_r; [|done].
      by destruct (IsRegexSet (projectRe opts)).
    + by destruct (IsRegexSet (projectRe opts)).
  - rewrite ?andb_true_r.
    destruct (IsRegexSet (tagsRe opts)); cbn [app length Nat.eqb].
    + destruct (TasksFromTags e tags (tagsRe opts)) as [|t ts];
        cbn [length Nat.eqb]; rewrite ?andb_false_r, ?andb_true_r; [|done].
      by destruct (IsRegexSet (projectRe opts)).
    + by destruct (IsRegexSet (projectRe opts)).
Qed.

(** C6: with the three patterns configured and mode [first-only],
    [ExtractTasks] returns at most one task reference, and as soon as the
    summary pattern matches anything the result is the first summary
    match, whatever the tags and the project would have given. *)
Theorem ExtractTasks_first_only_prefers_summary e tags opts :
  IsRegexSet (summaryRe opts) = true ->
  IsRegexSet (tagsRe opts) = true ->
  IsRegexSet (projectRe opts) = true ->
  mode opts = FirstTaskOnly ->
  length (extract e tags opts) <= 1 /\
  (TasksFromSummary e (summaryRe opts) <> [] ->
   extract e tags opts = take 1 (TasksFromSummary e (summaryRe opts))).
Proof.
  intros Hs Ht Hp Hm.
  rewrite extract_sequential by (rewrite Hm; discriminate).
  rewrite Hm, String.eqb_refl. cbn [andb]. unfold Client.fromSummary. rewrite Hs.
  split.
  - cbv zeta. match goal with |- context [Nat.ltb 1 (length ?l)] =>
      destruct (Nat.ltb_spec 1 (length l)) as [Hl|Hl] end.
    + rewrite length_take. lia.
    + exact Hl.
  - intros Hne. destruct (TasksFromSummary e (summaryRe opts)) as [|t ts]; [done|].
    cbv zeta. by destruct ts.
Qed.

(** C7: in mode [split] the result is the concatenation, in the order
    summary, tags, project, of what every configured pattern matches;
    a source that is not configured contributes nothing. *)
Theorem ExtractTasks_split_is_concatenation e tags opts :
  mode opts = SplitAcrossTasks ->
  extract e tags opts =
    (if IsRegexSet (summaryRe opts)
     then TasksFromSummary e (summaryRe opts) else [])
    ++ (if IsRegexSet (tagsRe opts)
        then TasksFromTags e tags (tagsRe opts) else [])
    ++ (if IsRegexSet (projectRe opts)
        then TasksFromProject e (projectRe opts) else []).
Proof. apply extract_split. Qed.

(** C10: when the mode is neither [split] nor [first-only], the tags are
    consulted only if the summary gave nothing, the project only if
    summary and tags gave nothing, and nothing is cut off: several
    summary matches are all returned, and only they. *)
Theorem ExtractTasks_unknown_mode_keeps_all e tags opts :
  mode opts <> SplitAcrossTasks ->
  mode opts <> FirstTaskOnly ->
  extract e tags opts =
    match fromSummary e opts with
    | [] => match fromTags e tags opts with
            | [] => fromProject e opts
            | t :: ts => t :: ts
            end
    | t :: ts => t :: ts
    end /\
  (1 < length (fromSummary e opts) ->
   1 < length (extract e tags opts) /\
   extract e tags opts = fromSummary e opts).
Proof.
  intros Hs Hf. rewrite extract_sequential by done.
  apply String.eqb_neq in Hf. rewrite Hf. cbn [andb]. cbv zeta.
  split; [done|]. intros Hl.
  destruct (fromSummary e opts); [simpl in Hl; lia|done].
Qed.
End TaskExtractionFacts.

(** ** Grouping and merged streams *)

Section GroupingFacts.
Import Worklog.

Lemma groupedCount_add (groups : gmap string Entries) (entry : Entry) (key : string) :
  groupedCount (<[key := default [] (groups !! key) ++ [entry]]> groups)
  = S (groupedCount groups).
Proof.
  unfold groupedCount. destruct (groups !! key) as [g|] eqn:Hk; simpl.
  - rewrite <- insert_delete_eq.
    rewrite map_to_list_insert by apply lookup_delete_eq.
    rewrite <- (map_to_list_delete groups key g Hk).
    simpl. rewrite length_app. simpl. lia.
  - rewrite map_to_list_insert by done. done.
Qed.

Lemma groupedCount_foldl (es : Entries) (groups : gmap string Entries) :
  groupedCount
    (foldl (fun groups entry =>
              let key := ID (Task entry) in
              <[key := default [] (groups !! key) ++ [entry]]> groups)
           groups es)
  = groupedCount groups + length es.
Proof.
  revert groups. induction es as [|e es IH]; intros groups; simpl.
  - lia.
  - rewrite IH, groupedCount_add. lia.
Qed.

(** Grouping neither loses nor duplicates entries. *)
Lemma GroupByTask_conserves (es : Entries) :
  groupedCount (GroupByTask es) = length es.
Proof.
  unfold GroupByTask. rewrite groupedCount_foldl.
  unfold groupedCount. by rewrite map_to_list_empty.
Qed.
End GroupingFacts.

Section MergeFacts.
Import TempoCloud.
Context {A : Type}.

Lemma sum_list_insert_tail (ls : list (list A)) (i : nat) (x : A) (l : list A) :
  ls !! i = Some (x :: l) ->
  sum_list (length <$> ls) = S (sum_list (length <$> <[i := l]> ls)).
Proof.
  revert i. induction ls as [|l0 ls IH]; intros [|i] Hi; simplify_eq/=.
  - done.
  - rewrite (IH i Hi). lia.
Qed.

(** A merged stream has as many elements as its sources together. *)
Lemma Merge_length (ls : list (list A)) (out : list A) :
  Merge ls out -> length out = sum_list (length <$> ls).
Proof.
  induction 1 as [ls Hall|ls i x l out Hi _ IH].
  - induction Hall as [|l ls -> _ IH]; [done|]. exact IH.
  - simpl. rewrite IH. symmetry. by apply (sum_list_insert_tail ls i x l).
Qed.

Lemma Merge_skip_empty (ls : list (list A)) (out : list A) :
  Merge ls out -> Merge ([] :: ls) out.
Proof.
  induction 1 as [ls Hall|ls i x l out Hi _ IH].
  - apply merge_done. by constructor.
  - by apply (merge_recv _ (S i) x l).
Qed.

(** Reading the senders one after the other is one of the merges. *)
Lemma Merge_concat (ls : list (list A)) : Merge ls (concat ls).
Proof.
  induction ls as [|l ls IH]; simpl.
  - apply merge_done. constructor.
  - induction l as [|x l IHl]; simpl.
    + by apply Merge_skip_empty.
    + by apply (merge_recv _ 0 x l).
Qed.
End MergeFacts.

(** ** The upload goroutines *)

Section UploadFacts.
Import Worklog Client TempoCloud.
Variable Url : Type.
Variable Authenticator : Type.
Variable URL : HTTPClient Url -> string -> string + error.
Variable ErrUploadEntries : error.
Variable Unmarshal : string -> JiraIssue + error.
Variable formatDate : Time -> string.
Variable formatTime : Time -> string.
Variable showUploadEntry : UploadEntry -> string.

Local Abbreviation group_trace :=
  (uploadGroup Url Authenticator ErrUploadEntries Unmarshal formatDate
     formatTime showUploadEntry).
Local Abbreviation result :=
  (entryResult ErrUploadEntries Unmarshal formatDate formatTime showUploadEntry).
Local Abbreviation upload :=
  (UploadEntries Url Authenticator URL ErrUploadEntries Unmarshal formatDate
     formatTime showUploadEntry).

(** Every entry of a group is started, in order. *)
Lemma attempted_uploadGroup c createURL getIssueURL opts env i0 entries :
  attempted (group_trace c createURL getIssueURL opts env i0 entries) = entries.
Proof.
  revert i0. induction entries as [|entry rest IH]; intros i0; [done|].
  cbn [uploadGroup]. unfold attempted in *. simpl.
  destruct (jiraResp (env i0)) as [resp|err]; simpl.
  - destruct (Unmarshal resp) as [issue|err]; simpl; by rewrite IH.
  - by rewrite IH.
Qed.

(** Every entry of a group puts its own result on the channel, in order. *)
Lemma sent_uploadGroup c createURL getIssueURL opts env i0 entries :
  sent (group_trace c createURL getIssueURL opts env i0 entries)
  = imap (fun i entry => result opts (env (i0 + i)%nat) entry) entries.
Proof.
  revert i0. induction entries as [|entry rest IH]; intros i0; [done|].
  cbn [uploadGroup imap]. unfold sent in *.
  rewrite Nat.add_0_r. unfold entryResult at 1.
  assert (Hrest : imap (fun i e => result opts (env (S i0 + i)%nat) e) rest
                  = imap ((fun i e => result opts (env (i0 + i)%nat) e) ∘ S) rest).
  { apply imap_ext. intros i e _. simpl. by rewrite Nat.add_succ_r. }
  destruct (jiraResp (env i0)) as [resp|err]; simpl.
  - destruct (Unmarshal resp) as [issue|err]; simpl;
      by rewrite IH, Hrest.
  - by rewrite IH, Hrest.
Qed.

Lemma length_sent_uploadGroup c createURL getIssueURL opts env i0 entries :
  length (sent (group_trace c createURL getIssueURL opts env i0 entries))
  = length entries.
Proof. by rewrite sent_uploadGroup, length_imap. Qed.

(** C5: a failing entry (issue lookup, decoding or upload request) does
    not end its group: every entry of the group, before and after the
    failure, is started, and each one publishes the result of its own
    attempt. *)
Theorem uploadGroup_failure_is_isolated c createURL getIssueURL opts env
    pre failing post err :
  result opts (env (length pre)) failing = Some err ->
  let trace :=
    group_trace c createURL getIssueURL opts env 0 (pre ++ failing :: post) in
  attempted trace = pre ++ failing :: post /\
  sent trace =
    imap (fun i entry => result opts (env i) entry) pre
    ++ Some err
    :: imap (fun i entry => result opts (env (S (length pre) + i)%nat) entry) post.
Proof.
  intros Herr trace. subst trace. split.
  - apply attempted_uploadGroup.
  - rewrite sent_uploadGroup. cbn [Nat.add]. rewrite imap_app. cbn [imap].
    rewrite Nat.add_0_r, Herr. f_equal. f_equal.
    apply imap_ext. intros i e _. simpl. by rewrite Nat.add_succ_r.
Qed.

Lemma published_groups c createURL getIssueURL opts env
    (groups : list (string * Entries)) :
  sum_list (length ∘ sent <$>
    ((fun g : string * Entries =>
        group_trace c createURL getIssueURL opts (env g.1) 0 g.2) <$> groups))
  = sum_list (length ∘ snd <$> groups).
Proof.
  induction groups as [|g groups IH]; [done|].
  cbn [fmap list_fmap] in *. change (sum_list (?x :: ?l)) with (x + sum_list l)%nat.
  rewrite IH. simpl. by rewrite length_sent_uploadGroup.
Qed.

(** C1, as the code has it: once both endpoint URLs are built, a call
    starts one goroutine per group and the goroutines together publish
    exactly one value per entry, each the result of that entry's own
    attempt; every stream the reader can receive has [length entries]
    values.  When building one of the URLs fails, the call publishes that
    single error and works on no entry. *)
Theorem UploadEntries_one_result_per_entry c env entries opts :
  (forall createURL getIssueURL,
     URL (tempoHttpClient Url Authenticator c) TempoPathWorklogCreate = inl createURL ->
     URL (jiraHttpClient Url Authenticator c) JiraPathIssue = inl getIssueURL ->
     let run := upload c env entries opts in
     published run = length entries /\
     sent <$> groupTasks run =
       (fun g : string * Entries =>
          imap (fun i entry => result opts (env g.1 i) entry) g.2)
         <$> map_to_list (GroupByTask entries) /\
     (exists stream, Delivered run stream) /\
     (forall stream, Delivered run stream -> length stream = length entries)) /\
  (forall err,
     URL (tempoHttpClient Url Authenticator c) TempoPathWorklogCreate = inr err \/
     ((exists createURL,
         URL (tempoHttpClient Url Authenticator c) TempoPathWorklogCreate
         = inl createURL) /\
      URL (jiraHttpClient Url Authenticator c) JiraPathIssue = inr err) ->
     let run := upload c env entries opts in
     caller run = [Send (Some (ErrUploadEntries +:+ ": " +:+ err))] /\
     groupTasks run = [] /\
     published run = 1%nat).
Proof.
  split.
  - intros createURL getIssueURL Hc Hg run. subst run.
    unfold UploadEntries. rewrite Hc, Hg.
    assert (Hpub : published
      {| caller := [];
         groupTasks :=
           (fun g : string * Entries =>
              group_trace c createURL getIssueURL opts (env g.1) 0 g.2)
             <$> map_to_list (GroupByTask entries) |} = length entries).
    { unfold published. cbn [caller groupTasks sent omap length Nat.add].
      rewrite published_groups. apply GroupByTask_conserves. }
    split; [exact Hpub|]. split; [|split].
    + cbn [groupTasks]. rewrite <- list_fmap_compose.
      apply list_fmap_ext. intros i [k g] _. simpl.
      by rewrite sent_uploadGroup.
    + eexists. apply Merge_concat.
    + intros stream Hd. unfold Delivered in Hd.
      apply Merge_length in Hd. rewrite Hd, <- Hpub.
      unfold published. cbn [fmap list_fmap sum_list_with].
      by rewrite list_fmap_compose.
  - intros err H run. subst run. unfold UploadEntries.
    by destruct H as [->|[[createURL ->] ->]].
Qed.
End UploadFacts.

(** Witnesses of the task extraction theorems on the sample patterns. *)

Lemma ExtractTasks_first_only_prefers_summary_witness :
  let extracted :=
    Client.ExtractTasks string Samples.isSet Samples.summaryTasks
      Samples.tagTasks Samples.projectTasks Samples.entryA
      (Samples.tasksNamed ["TAG-1"])
      (Samples.extractionOpts Client.FirstTaskOnly) in
  length extracted <= 1 /\
  (Samples.summaryTasks Samples.entryA "CPT-\d+" <> [] ->
   extracted = take 1 (Samples.summaryTasks Samples.entryA "CPT-\d+")).
Proof.
  apply (ExtractTasks_first_only_prefers_summary string Samples.isSet
           Samples.summaryTasks Samples.tagTasks Samples.projectTasks
           Samples.entryA (Samples.tasksNamed ["TAG-1"])
           (Samples.extractionOpts Client.FirstTaskOnly)); reflexivity.
Defined.

Lemma ExtractTasks_split_is_concatenation_witness :
  Client.ExtractTasks string Samples.isSet Samples.summaryTasks
    Samples.tagTasks Samples.projectTasks Samples.entryA
    (Samples.tasksNamed ["TAG-1"])
    (Samples.extractionOpts Client.SplitAcrossTasks)
  = Samples.tasksNamed ["CPT-\d+"; "CPT-\d+-bis"]
    ++ Samples.tasksNamed ["TAG-1"]
    ++ [Worklog.mkIDName "456" "MARVEL"].
Proof.
  apply (ExtractTasks_split_is_concatenation string Samples.isSet
           Samples.summaryTasks Samples.tagTasks Samples.projectTasks
           Samples.entryA (Samples.tasksNamed ["TAG-1"])
           (Samples.extractionOpts Client.SplitAcrossTasks)).
  reflexivity.
Defined.

Lemma ExtractTasks_unknown_mode_keeps_all_witness :
  let extracted :=
    Client.ExtractTasks string Samples.isSet Samples.summaryTasks
      Samples.tagTasks Samples.projectTasks Samples.entryA
      (Samples.tasksNamed ["TAG-1"])
      (Samples.extractionOpts EmptyString) in
  1 < length extracted /\
  extracted = Samples.tasksNamed ["CPT-\d+"; "CPT-\d+-bis"].
Proof.
  apply (ExtractTasks_unknown_mode_keeps_all string Samples.isSet
           Samples.summaryTasks Samples.tagTasks Samples.projectTasks
           Samples.entryA (Samples.tasksNamed ["TAG-1"])
           (Samples.extractionOpts EmptyString)).
  - vm_compute. discriminate.
  - vm_compute. discriminate.
  - vm_compute. lia.
Defined.

(** Witnesses and counterexample for the upload goroutines. *)

Lemma uploadGroup_failure_is_isolated_witness :
  let trace :=
    TempoCloud.uploadGroup string string "failed to upload entries"
      Samples.unmarshal Samples.formatDate Samples.formatTime
      Samples.showUploadEntry Samples.client
      "https://api.tempo.io/4/worklogs"
      "https://marvel.atlassian.net/rest/api/3/issue/"
      (Samples.uploadOpts false false) Samples.secondLookupFails 0
      ([Samples.entryA] ++ Samples.entryB :: [Samples.entryA]) in
  TempoCloud.attempted trace = [Samples.entryA; Samples.entryB; Samples.entryA] /\
  TempoCloud.sent trace =
    [None; Some "failed to upload entries: CPT-2014: timeout"; None].
Proof.
  apply (uploadGroup_failure_is_isolated string string
           "failed to upload entries" Samples.unmarshal Samples.formatDate
           Samples.formatTime Samples.showUploadEntry Samples.client
           "https://api.tempo.io/4/worklogs"
           "https://marvel.atlassian.net/rest/api/3/issue/"
           (Samples.uploadOpts false false) Samples.secondLookupFails
           [Samples.entryA] Samples.entryB [Samples.entryA]
           "failed to upload entries: CPT-2014: timeout").
  reflexivity.
Defined.

Lemma UploadEntries_one_result_per_entry_witness :
  let run :=
    TempoCloud.UploadEntries string string Samples.urlOk
      "failed to upload entries" Samples.unmarshal Samples.formatDate
      Samples.formatTime Samples.showUploadEntry Samples.client
      Samples.allFine [Samples.entryA; Samples.entryC; Samples.entryB]
      (Samples.uploadOpts false false) in
  TempoCloud.published run = 3%nat /\
  forall stream, TempoCloud.Delivered run stream -> length stream = 3%nat.
Proof.
  destruct (UploadEntries_one_result_per_entry string string Samples.urlOk
              "failed to upload entries" Samples.unmarshal Samples.formatDate
              Samples.formatTime Samples.showUploadEntry Samples.client
              Samples.allFine [Samples.entryA; Samples.entryC; Samples.entryB]
              (Samples.uploadOpts false false)) as [Hok _].
  destruct (Hok "https://api.tempo.io/4/worklogs"
              "https://marvel.atlassian.net/rest/api/3/issue/"
              eq_refl eq_refl) as (Hpub & _ & _ & Hall).
  split; [exact Hpub | exact Hall].
Defined.

(** C1 as stated fails: when an endpoint URL cannot be built, a call with
    two entries publishes one value, not two. *)
Lemma UploadEntries_url_failure_counterexample :
  let run :=
    TempoCloud.UploadEntries string string Samples.urlBroken
      "failed to upload entries" Samples.unmarshal Samples.formatDate
      Samples.formatTime Samples.showUploadEntry Samples.client
      Samples.allFine [Samples.entryA; Samples.entryB]
      (Samples.uploadOpts false false) in
  TempoCloud.published run = 1%nat /\
  TempoCloud.published run <> length [Samples.entryA; Samples.entryB] /\
  forall stream, TempoCloud.Delivered run stream ->
    length stream <> length [Samples.entryA; Samples.entryB].
Proof.
  split; [reflexivity|]. split; [discriminate|].
  intros stream Hd. apply Merge_length in Hd. rewrite Hd. discriminate.
Qed.

(** ** Selection of the uploader *)

Section GetUploaderFacts.
Import Client Root.
Variable Url : Type.
Variable Authenticator : Type.
Variable url_Parse : string -> Url + error.
Variable NewTokenAuth : string -> string -> string -> Authenticator + error.
Variable NewBasicAuth : string -> string -> Authenticator + error.
Variable DefaultRequestTimeout : Z.
Variable TempoImpl : Type.
Variable tempo_NewUploader :
  TempoClientOpts -> option (Uploader Url Authenticator TempoImpl) * option error.

Local Abbreviation get :=
  (getUploader Url Authenticator url_Parse NewTokenAuth NewBasicAuth
     DefaultRequestTimeout TempoImpl tempo_NewUploader).

(** C9: a target other than [tempo] and [tempo-cloud] yields the nil
    uploader together with [ErrNoTargetImplementation], without any
    constructor being called; the two supported targets yield what the
    constructor of the matching provider returns for the configured
    credentials and URLs, which for [tempo-cloud] is always a
    [*tempoClient] wrapped as an uploader. *)
Theorem getUploader_selects_by_target (viper : gmap string string) :
  let target := GetString viper "target" in
  (target <> "tempo" -> target <> "tempo-cloud" ->
   get viper = (None, Some ErrNoTargetImplementation)) /\
  (target = "tempo" ->
   get viper =
     tempo_NewUploader
       {| tempoBase := {| Timeout := DefaultRequestTimeout |};
          tempoBasicAuth :=
            {| Username := GetString viper "tempo-username";
               Password := GetString viper "tempo-password" |};
          tempoBaseURL := GetString viper "tempo-url" |}) /\
  (target = "tempo-cloud" ->
   get viper =
     tempocloud_NewUploader Url Authenticator url_Parse NewTokenAuth
       NewBasicAuth TempoImpl
       {| TempoCloud.baseClientOpts := {| Timeout := DefaultRequestTimeout |};
          TempoCloud.TempoAuth :=
            {| Header := EmptyString; TokenName := "Bearer";
               Token := GetString viper "tempo-api-key" |};
          TempoCloud.JiraAuth :=
            {| Username := GetString viper "jira-username";
               Password := GetString viper "jira-api-key" |};
          TempoCloud.TempoBaseURL := GetString viper "tempo-cloud-url";
          TempoCloud.JiraBaseURL := GetString viper "jira-url" |} /\
   exists c err,
     get viper = (Some (TempoCloudUploader Url Authenticator TempoImpl c), err)).
Proof.
  intros target. subst target. unfold getUploader. cbv zeta.
  split; [|split].
  - intros H1 H2. apply String.eqb_neq in H1, H2. by rewrite H1, H2.
  - intros H. by rewrite H.
  - intros H. rewrite H.
    change (String.eqb "tempo-cloud" "tempo") with false.
    change (String.eqb "tempo-cloud" "tempo-cloud") with true.
    cbv iota. split; [done|]. unfold tempocloud_NewUploader.
    destruct (TempoCloud.newClient _ _ _ _ _ _) as [c err]. by exists c, err.
Qed.
End GetUploaderFacts.

Lemma getUploader_selects_by_target_witness :
  let get :=
    Root.getUploader string string Samples.parseUrl Samples.tokenAuth
      Samples.basicAuth 30 unit (fun _ => (Some (Root.TempoUploader _ _ _ tt), None)) in
  get {["target" := "toggl"]} = (None, Some Root.ErrNoTargetImplementation) /\
  get {["target" := "tempo"]} = (Some (Root.TempoUploader _ _ _ tt), None) /\
  exists c err,
    get {["target" := "tempo-cloud"]}
    = (Some (Root.TempoCloudUploader _ _ _ c), err).
Proof.
  intros get. split; [|split].
  - apply (getUploader_selects_by_target string string Samples.parseUrl
             Samples.tokenAuth Samples.basicAuth 30 unit
             (fun _ => (Some (Root.TempoUploader _ _ _ tt), None))
             {["target" := "toggl"]}); vm_compute; discriminate.
  - apply (getUploader_selects_by_target string string Samples.parseUrl
             Samples.tokenAuth Samples.basicAuth 30 unit
             (fun _ => (Some (Root.TempoUploader _ _ _ tt), None))
             {["target" := "tempo"]}); reflexivity.
  - apply (getUploader_selects_by_target string string Samples.parseUrl
             Samples.tokenAuth Samples.basicAuth 30 unit
             (fun _ => (Some (Root.TempoUploader _ _ _ tt), None))
             {["target" := "tempo-cloud"]}); reflexivity.
Defined.

(** Witnesses and counterexample for the duration policy. *)

Section DurationPolicyExamples.
Local Open Scope Z_scope.


Lemma rounding_is_half_up_at_30_seconds_witness :
  let opts := Samples.uploadOpts false true in
  let sent (billable unbillable : Z) :=
    TempoCloud.makeUploadEntry Samples.formatDate Samples.formatTime
      (Samples.withDurations (billable * Duration.Second)
                             (unbillable * Duration.Second))
      (TempoCloud.mkJiraIssue 789 "CPT-2014") opts in
  (TempoCloud.BillableSeconds (sent 0 30) = 0 /\
   TempoCloud.TimeSpentSeconds (sent 0 30) = 60)%Z /\
  (TempoCloud.BillableSeconds (sent 0 29) = 0 /\
   TempoCloud.TimeSpentSeconds (sent 0 29) = 0)%Z /\
  TempoCloud.BillableSeconds (sent 30 0)%Z = 60%Z /\
  TempoCloud.BillableSeconds (sent 29 0)%Z = 0%Z.
Proof.
  intros opts sent. split; [|split; [|split]].
  - apply (rounding_is_half_up_at_30_seconds Samples.formatDate
             Samples.formatTime
             (Samples.withDurations (0 * Duration.Second) (30 * Duration.Second))
             (TempoCloud.mkJiraIssue 789 "CPT-2014") opts); reflexivity.
  - apply (rounding_is_half_up_at_30_seconds Samples.formatDate
             Samples.formatTime
             (Samples.withDurations (0 * Duration.Second) (29 * Duration.Second))
             (TempoCloud.mkJiraIssue 789 "CPT-2014") opts); reflexivity.
  - apply (rounding_is_half_up_at_30_seconds Samples.formatDate
             Samples.formatTime
             (Samples.withDurations (30 * Duration.Second) (0 * Duration.Second))
             (TempoCloud.mkJiraIssue 789 "CPT-2014") opts); reflexivity.
  - apply (rounding_is_half_up_at_30_seconds Samples.formatDate
             Samples.formatTime
             (Samples.withDurations (29 * Duration.Second) (0 * Duration.Second))
             (TempoCloud.mkJiraIssue 789 "CPT-2014") opts); reflexivity.
Defined.

Lemma transmitted_total_is_sum_of_components_witness :
  let entry := Samples.withDurations (90 * Duration.Second) (45 * Duration.Second) in
  let opts := Samples.uploadOpts false true in
  let sent :=
    TempoCloud.makeUploadEntry Samples.formatDate Samples.formatTime entry
      (TempoCloud.mkJiraIssue 789 "CPT-2014") opts in
  TempoCloud.TimeSpentSeconds sent
  = (TempoCloud.BillableSeconds sent
     + TempoCloud.wholeSeconds (TempoCloud.postUnbillable opts entry))%Z.
Proof.
  apply (transmitted_total_is_sum_of_components Samples.formatDate
           Samples.formatTime
           (Samples.withDurations (90 * Duration.Second) (45 * Duration.Second))
           (TempoCloud.mkJiraIssue 789 "CPT-2014")
           (Samples.uploadOpts false true)).
  - vm_compute. split; discriminate.
  - vm_compute. split; discriminate.
  - vm_compute. discriminate.
  - left. reflexivity.
Defined.

(** C4 as stated fails.  Without any flag, half a second billable and half
    a second unbillable are sent as one second spent, zero billable; and
    with rounding, two durations of about 146 years each, whose sum still
    fits, overflow once both are rounded up. *)
Lemma transmitted_total_counterexample :
  (let entry := Samples.withDurations 500000000 500000000 in
   let opts := Samples.uploadOpts false false in
   let sent :=
     TempoCloud.makeUploadEntry Samples.formatDate Samples.formatTime entry
       (TempoCloud.mkJiraIssue 789 "CPT-2014") opts in
   (0 <= Worklog.BillableDuration entry)%Z /\
   (0 <= Worklog.UnbillableDuration entry)%Z /\
   TempoCloud.TimeSpentSeconds sent = 1%Z /\
   TempoCloud.BillableSeconds sent = 0%Z /\
   TempoCloud.wholeSeconds (TempoCloud.postUnbillable opts entry) = 0%Z /\
   TempoCloud.TimeSpentSeconds sent
   <> (TempoCloud.BillableSeconds sent
       + TempoCloud.wholeSeconds (TempoCloud.postUnbillable opts entry))%Z) /\
  (let entry :=
     Samples.withDurations (4611686010 * Duration.Second)
                           (4611686010 * Duration.Second) in
   let opts := Samples.uploadOpts false true in
   let sent :=
     TempoCloud.makeUploadEntry Samples.formatDate Samples.formatTime entry
       (TempoCloud.mkJiraIssue 789 "CPT-2014") opts in
   (0 <= Worklog.BillableDuration entry + Worklog.UnbillableDuration entry
      <= Float64.maxInt64)%Z /\
   TempoCloud.TimeSpentSeconds sent
   <> (TempoCloud.BillableSeconds sent
       + TempoCloud.wholeSeconds (TempoCloud.postUnbillable opts entry))%Z).
Proof.
  split.
  - cbv zeta. repeat split; try (vm_compute; congruence).
  - cbv zeta. repeat split; try (vm_compute; congruence).
Qed.

Lemma rounding_to_minute_is_idempotent_witness :
  let entry := Samples.withDurations (29 * Duration.Second) (95 * Duration.Second) in
  let opts := Samples.uploadOpts false true in
  Duration.roundToClosestMinute (120 * Duration.Second) = (120 * Duration.Second)%Z /\
  Duration.roundToClosestMinute
    (Duration.roundToClosestMinute (95 * Duration.Second))
  = Duration.roundToClosestMinute (95 * Duration.Second) /\
  TempoCloud.durationPolicy opts
    (Worklog.setDurations entry (TempoCloud.postBillable opts entry)
       (TempoCloud.postUnbillable opts entry))
  = TempoCloud.durationPolicy opts entry.
Proof.
  intros entry opts.
  destruct (rounding_to_minute_is_idempotent (120 * Duration.Second) opts entry)
    as (Hwhole & _ & Hpolicy); [vm_compute; split; discriminate ..|].
  destruct (rounding_to_minute_is_idempotent (95 * Duration.Second) opts entry)
    as (_ & Htwice & _); [vm_compute; split; discriminate ..|].
  split; [apply Hwhole; reflexivity|]. split; [exact Htwice|exact Hpolicy].
Defined.

(** Folding first is observable: 20 s billable and 20 s unbillable are
    sent as one minute, whereas rounding each part first would give
    nothing to fold. *)
Example fold_then_round_differs_from_round_then_fold :
  let entry := Samples.withDurations (20 * Duration.Second) (20 * Duration.Second) in
  TempoCloud.postBillable (Samples.uploadOpts true true) entry
  = (60 * Duration.Second)%Z /\
  Duration.dadd
    (Duration.roundToClosestMinute (Worklog.UnbillableDuration entry))
    (Duration.roundToClosestMinute (Worklog.BillableDuration entry))
  = 0%Z.
Proof. split; vm_compute; reflexivity. Qed.
End DurationPolicyExamples.

(** ** Two-sided bounds through binary64 operations *)

Module Float64Bounds.
Import Float64 Float64Facts.
Local Open Scope Z_scope.

Lemma rescale_bound_lower (m e e' p t : Z) :
  e' <= e <= 0 -> 0 <= t -> t + e' <= 0 ->
  p * 2 ^ (- t - e') <= m * 2 ^ (e - e') -> p * 2 ^ (- e) <= m * 2 ^ t.
Proof.
  intros He Ht Hte H.
  assert (Hj : 0 < 2 ^ (e - e')) by (apply pow2_pos; lia).
  assert (E : 2 ^ (- t - e') * 2 ^ t = 2 ^ (- e) * 2 ^ (e - e')).
  { rewrite <- !pow2_split by lia. f_equal. lia. }
  apply (Z.mul_le_mono_pos_r _ _ (2 ^ (e - e'))); [done|].
  replace (p * 2 ^ (- e) * 2 ^ (e - e')) with (p * (2 ^ (- t - e') * 2 ^ t))
    by (rewrite E; ring).
  assert (0 < 2 ^ t) by (apply pow2_pos; lia). nia.
Qed.

(** The quotient of two normal doubles, rounded, stays between any two
    bounds [pl / 2^t] and [pu / 2^t] that enclose the exact quotient. *)
Lemma div_normal_between (s : bool) (a c pl pu t : Z) :
  0 < a -> a < c -> c < 2 ^ 53 -> 0 <= t <= 52 -> 0 <= pl -> 0 < pu ->
  pl * c <= a * 2 ^ t <= pu * c ->
  exists (m : positive) (e : Z),
    div (normal s a 0) (normal false c 0) = S754_finite s m e /\
    2 ^ 52 <= Z.pos m < 2 ^ 53 /\
    -1074 <= e <= -52 /\
    pl * 2 ^ (- e) <= Z.pos m * 2 ^ t <= pu * 2 ^ (- e).
Proof.
  intros Ha Hac Hc Ht Hpl Hpu [Hlo Hhi].
  pose proof (Zdigits2_le_53 a ltac:(lia)) as Hda.
  pose proof (Zdigits2_le_53 c ltac:(lia)) as Hdc.
  pose proof (Zdigits2_mono a c Ha ltac:(lia)) as Hdac.
  pose proof (normal_mantissa_bounds a ltac:(lia)) as Hma.
  pose proof (normal_mantissa_bounds c ltac:(lia)) as Hmc.
  unfold div, SFdiv, normal, SFdiv_core_binary.
  rewrite !normal_mantissa by lia.
  rewrite !Zdigits2_mul_pow2 by lia.
  set (m1 := a * 2 ^ (53 - Zdigits2 a)) in *.
  set (m2 := c * 2 ^ (53 - Zdigits2 c)) in *.
  replace (Zdigits2 a + (53 - Zdigits2 a) + (0 + Zdigits2 a - 53)
           - (Zdigits2 c + (53 - Zdigits2 c) + (0 + Zdigits2 c - 53)))
    with (Zdigits2 a - Zdigits2 c) by lia.
  rewrite fexp_normal by lia.
  replace (0 + Zdigits2 a - 53 - (0 + Zdigits2 c - 53))
    with (Zdigits2 a - Zdigits2 c) by lia.
  rewrite Z.min_l by lia.
  replace (Zdigits2 a - Zdigits2 c - (Zdigits2 a - Zdigits2 c - 53)) with 53 by lia.
  cbv iota. rewrite xorb_false_r, Z.shiftl_mul_pow2 by lia.
  destruct (Z.div_eucl (m1 * 2 ^ 53) m2) as [qz r] eqn:Hdiv.
  assert (Hqz : qz = m1 * 2 ^ 53 / m2) by (unfold Z.div; by rewrite Hdiv).
  assert (Hr : r = (m1 * 2 ^ 53) mod m2) by (unfold Z.modulo; by rewrite Hdiv).
  clear Hdiv.
  pose proof (Z.div_mod (m1 * 2 ^ 53) m2 ltac:(lia)) as Hdm.
  pose proof (Z.mod_pos_bound (m1 * 2 ^ 53) m2 ltac:(lia)) as Hrb.
  rewrite <- Hqz, <- Hr in Hdm. rewrite <- Hr in Hrb.
  assert (Hqlo : 2 ^ 52 <= qz) by (rewrite Hqz; apply Z.div_le_lower_bound; lia).
  assert (Hqhi : qz < 2 ^ 54) by (rewrite Hqz; apply Z.div_lt_upper_bound; lia).
  set (ed := Zdigits2 a - Zdigits2 c - 53) in *.
  set (ka := 53 - Zdigits2 a) in *. set (kc := 53 - Zdigits2 c) in *.
  assert (Hed : ed = kc - ka - 53) by (subst ed ka kc; lia).
  set (W := 2 ^ (53 + ka - kc - t)).
  assert (Hpka : 0 < 2 ^ ka) by (apply pow2_pos; lia).
  assert (Hpkc : 0 < 2 ^ kc) by (apply pow2_pos; lia).
  assert (Hpt : 0 < 2 ^ t) by (apply pow2_pos; lia).
  assert (HpW : 0 < W) by (apply pow2_pos; lia).
  assert (E : 2 ^ ka * 2 ^ 53 = 2 ^ kc * W * 2 ^ t).
  { subst W. rewrite <- !pow2_split by lia. f_equal. lia. }
  assert (Hscale : forall p, (m2 * (p * W)) * 2 ^ t = p * c * (2 ^ ka * 2 ^ 53)).
  { intros p. subst m2. rewrite E. ring. }
  assert (Hm1 : m1 * 2 ^ 53 * 2 ^ t = a * 2 ^ t * (2 ^ ka * 2 ^ 53))
    by (subst m1; ring).
  assert (HG : 0 < 2 ^ ka * 2 ^ 53) by (apply Z.mul_pos_pos; lia).
  assert (Hupper : m1 * 2 ^ 53 <= m2 * (pu * W)).
  { apply (Z.mul_le_mono_pos_r _ _ (2 ^ t)); [done|].
    rewrite Hscale, Hm1. apply Z.mul_le_mono_nonneg_r; lia. }
  assert (Hlower : m2 * (pl * W) <= m1 * 2 ^ 53).
  { apply (Z.mul_le_mono_pos_r _ _ (2 ^ t)); [done|].
    rewrite Hscale, Hm1. apply Z.mul_le_mono_nonneg_r; lia. }
  assert (Hqle : qz <= pu * W) by (rewrite Hqz; apply Z.div_le_upper_bound; lia).
  assert (Hqge : pl * W <= qz) by (rewrite Hqz; apply Z.div_le_lower_bound; lia).
  assert (Hloc : qz < pu * W \/ (qz = pu * W /\ new_location m2 r = loc_Exact)).
  { destruct (Z.eq_dec qz (pu * W)) as [Heq|Hne]; [right|left; lia].
    split; [done|]. apply new_location_exact. rewrite Heq in Hdm. lia. }
  assert (Hdq : 53 <= Zdigits2 qz <= 54 /\ Zdigits2 qz + ed - 53 <= -53).
  { destruct (Z.lt_ge_cases qz (2 ^ 53)) as [Hlt|Hge].
    - rewrite (Zdigits2_unique qz 53); lia.
    - rewrite (Zdigits2_unique qz 54) by lia. split; [lia|].
      destruct (Z.eq_dec ka kc) as [Heq|Hne]; [exfalso|lia].
      assert (m1 < m2)
        by (subst m1 m2; rewrite Heq; by apply Z.mul_lt_mono_pos_r).
      assert (qz < 2 ^ 53); [|lia].
      rewrite Hqz. apply Z.div_lt_upper_bound; lia. }
  destruct Hdq as [Hdq Her]. set (er := Zdigits2 qz + ed - 53) in *.
  assert (HW : forall p, p * W = p * 2 ^ (- t - er) * 2 ^ (er - ed)).
  { intros p. subst W. rewrite <- Z.mul_assoc, <- pow2_split by lia.
    f_equal. f_equal. lia. }
  pose proof (binary_round_aux_sandwich s qz ed (new_location m2 r)
                (pl * 2 ^ (- t - er)) (pu * 2 ^ (- t - er)) ltac:(lia)) as Hs.
  cbv zeta in Hs. fold er in Hs. rewrite <- !HW in Hs.
  destruct (Hs ltac:(lia) ltac:(lia) ltac:(lia) Hqge Hloc)
    as (m & e & -> & Hm & He & Hval).
  exists m, e. split; [done|]. split; [done|]. split; [lia|]. split.
  - apply (rescale_bound_lower _ e er); lia.
  - apply (rescale_bound _ e er); lia.
Qed.


(** The sum of a positive integer [a < 2^j] and a fraction known to lie in
    [[pl / 2^t, pu / 2^t]], rounded, stays in [[a + pl / 2^t, a + pu / 2^t]]:
    these bounds are representable as long as [t + j <= 53]. *)
Lemma add_normal_between (s : bool) (a : Z) (mq : positive) (eq pl pu t j : Z) :
  0 < a -> 1 <= j <= 50 -> 0 <= t -> t + j <= 53 ->
  a * 2 ^ t + pu < 2 ^ (t + j) ->
  2 ^ 52 <= Z.pos mq < 2 ^ 53 -> -1074 <= eq ->
  0 <= pl -> 0 < pu <= 2 ^ t ->
  pl * 2 ^ (- eq) <= Z.pos mq * 2 ^ t <= pu * 2 ^ (- eq) ->
  exists (m : positive) (e : Z),
    add (normal s a 0) (S754_finite s mq eq) = S754_finite s m e /\
    e < 0 /\
    (a * 2 ^ t + pl) * 2 ^ (- e) <= Z.pos m * 2 ^ t
      <= (a * 2 ^ t + pu) * 2 ^ (- e).
Proof.
  intros Ha Hj Ht Htj Hsum Hmq Heq Hpl Hpu [Hqlo Hqhi].
  assert (Hpt : 0 < 2 ^ t) by (apply pow2_pos; lia).
  assert (Ha53 : 0 < a < 2 ^ 53).
  { split; [done|].
    assert (2 ^ (t + j) <= 2 ^ t * 2 ^ 53).
    { rewrite <- pow2_split by lia. apply Z.pow_le_mono_r; lia. }
    nia. }
  pose proof (Zdigits2_le_53 a Ha53) as Hda.
  assert (Heq52 : eq <= -52).
  { destruct (Z.le_gt_cases eq (-52)) as [|Hgt]; [done|exfalso].
    assert (2 ^ (- eq) <= 2 ^ 51) by (apply Z.pow_le_mono_r; lia).
    assert (0 <= 2 ^ (- eq)) by (apply Z.pow_nonneg; lia).
    assert (pu * 2 ^ (- eq) <= 2 ^ t * 2 ^ 51) by (apply Z.mul_le_mono_nonneg; lia).
    assert (2 ^ 52 * 2 ^ t <= Z.pos mq * 2 ^ t) by (apply Z.mul_le_mono_nonneg_r; lia).
    lia. }
  assert (HpE : 0 < 2 ^ (- eq)) by (apply pow2_pos; lia).
  unfold add, SFadd, normal.
  rewrite Z.min_r by lia.
  destruct (shl_align_spec (Z.to_pos (a * 2 ^ (53 - Zdigits2 a)))
              (0 + Zdigits2 a - 53) eq) as (mz1 & -> & Hmz1); [lia|].
  destruct (shl_align_spec mq eq eq) as (mz2 & -> & Hmz2); [lia|].
  cbn [fst]. rewrite Hmz1, Hmz2, normal_mantissa by lia.
  rewrite Z.sub_diag, Z.mul_1_r, cond_Zopp_add.
  rewrite <- Z.mul_assoc, <- pow2_split by lia.
  replace (53 - Zdigits2 a + (0 + Zdigits2 a - 53 - eq)) with (- eq) by lia.
  set (S := a * 2 ^ (- eq) + Z.pos mq).
  assert (HSt : (a * 2 ^ t + pl) * 2 ^ (- eq) <= S * 2 ^ t
                <= (a * 2 ^ t + pu) * 2 ^ (- eq)) by (subst S; nia).
  assert (HSlo : 2 ^ 52 <= S).
  { assert (2 ^ 52 <= 2 ^ (- eq)) by (apply Z.pow_le_mono_r; lia). subst S. nia. }
  assert (HShi : S < 2 ^ (j - eq)).
  { replace (j - eq) with (j + - eq) by lia. rewrite pow2_split by lia.
    rewrite pow2_split in Hsum by lia.
    assert (0 < 2 ^ j) by (apply pow2_pos; lia). nia. }
  assert (HdS : 53 <= Zdigits2 S <= j - eq).
  { pose proof (Zdigits2_bounds S ltac:(lia)) as [Hl Hu]. split.
    - destruct (Z.le_gt_cases 53 (Zdigits2 S)) as [|Hlt]; [done|exfalso].
      assert (2 ^ Zdigits2 S <= 2 ^ 52) by (apply Z.pow_le_mono_r; lia). lia.
    - destruct (Z.le_gt_cases (Zdigits2 S) (j - eq)) as [|Hgt]; [done|exfalso].
      assert (2 ^ (j - eq) <= 2 ^ (Zdigits2 S - 1)) by (apply Z.pow_le_mono_r; lia).
      lia. }
  rewrite binary_normalize_signed by lia.
  unfold binary_round.
  change (Z.pos (digits2_pos (Z.to_pos S))) with (Zdigits2 (Z.pos (Z.to_pos S))).
  rewrite Z2Pos.id by lia. rewrite fexp_normal by lia.
  rewrite shl_align_noop by lia. rewrite Z2Pos.id by lia.
  set (er := Zdigits2 S + eq - 53) in *.
  assert (HW : forall p, p * 2 ^ (- t - er) * 2 ^ (er - eq) * 2 ^ t
                         = p * 2 ^ (- eq)).
  { intros p. rewrite <- !Z.mul_assoc, <- !pow2_split by lia.
    f_equal. f_equal. lia. }
  pose proof (binary_round_aux_sandwich s S eq loc_Exact
                ((a * 2 ^ t + pl) * 2 ^ (- t - er))
                ((a * 2 ^ t + pu) * 2 ^ (- t - er)) ltac:(lia)) as Hs.
  cbv zeta in Hs. fold er in Hs.
  assert (Hlow : (a * 2 ^ t + pl) * 2 ^ (- t - er) * 2 ^ (er - eq) <= S).
  { apply (Z.mul_le_mono_pos_r _ _ (2 ^ t)); [done|]. rewrite HW. lia. }
  assert (Hupp : S <= (a * 2 ^ t + pu) * 2 ^ (- t - er) * 2 ^ (er - eq)).
  { apply (Z.mul_le_mono_pos_r _ _ (2 ^ t)); [done|]. rewrite HW. lia. }
  destruct (Hs ltac:(lia) ltac:(lia) ltac:(lia) Hlow) as (m & e & -> & Hm & He & Hval).
  { destruct (Z.eq_dec S ((a * 2 ^ t + pu) * 2 ^ (- t - er) * 2 ^ (er - eq)));
      [right; done|left; lia]. }
  exists m, e. split; [done|]. split; [lia|]. split.
  - apply (rescale_bound_lower _ e er); lia.
  - apply (rescale_bound _ e er); lia.
Qed.

(** [math.Round] on a double between [k] and [k + 1]: down below the
    half, up from the half on. *)
Lemma Round_finite_half (s : bool) (m : positive) (e k : Z) :
  e < 0 -> 0 <= k ->
  k * 2 ^ (- e) <= Z.pos m <= (k + 1) * 2 ^ (- e) ->
  (2 * Z.pos m < (2 * k + 1) * 2 ^ (- e) ->
   Round (S754_finite s m e) = signed_int s k) /\
  ((2 * k + 1) * 2 ^ (- e) <= 2 * Z.pos m ->
   Round (S754_finite s m e) = signed_int s (k + 1)).
Proof.
  intros He Hk [Hlo Hhi]. unfold Round.
  destruct (Z.leb_spec 0 e) as [|_]; [lia|].
  set (P := 2 ^ (- e)) in *.
  assert (HP : 0 < P) by (apply pow2_pos; lia).
  destruct (Z.eq_dec (Z.pos m) ((k + 1) * P)) as [Heq|Hne].
  - rewrite Heq, Z.div_mul, Z.mod_mul by lia.
    destruct (Z.leb_spec P (2 * 0)); [lia|].
    split; [intros; nia|done].
  - assert (Hdiv : Z.pos m / P = k).
    { symmetry. apply (Z.div_unique_pos _ _ k (Z.pos m - k * P)); lia. }
    assert (Hmod : Z.pos m mod P = Z.pos m - k * P).
    { symmetry. apply (Z.mod_unique_pos _ _ k (Z.pos m - k * P)); lia. }
    rewrite Hdiv, Hmod.
    destruct (Z.leb_spec P (2 * (Z.pos m - k * P))) as [Hup|Hdown].
    + split; [intros; nia|done].
    + split; [done|intros; nia].
Qed.

(** [int64(f)] on a double in [[k, k + 1)]. *)
Lemma to_int64_finite_floor (s : bool) (m : positive) (e k : Z) :
  e < 0 -> 0 <= k < 2 ^ 63 ->
  k * 2 ^ (- e) <= Z.pos m < (k + 1) * 2 ^ (- e) ->
  to_int64 (S754_finite s m e) = cond_Zopp s k.
Proof.
  intros He Hk [Hlo Hhi]. unfold to_int64, trunc_mag.
  destruct (Z.leb_spec 0 e) as [|_]; [lia|].
  assert (HP : 0 < 2 ^ (- e)) by (apply pow2_pos; lia).
  assert (Hdiv : Z.pos m / 2 ^ (- e) = k).
  { symmetry. apply (Z.div_unique_pos _ _ k (Z.pos m - k * 2 ^ (- e))); lia. }
  rewrite Hdiv. unfold minInt64, maxInt64.
  destruct (Z.leb_spec (- 2 ^ 63) (cond_Zopp s k)),
    (Z.leb_spec (cond_Zopp s k) (2 ^ 63 - 1)); simpl; try done;
    destruct s; simpl in *; lia.
Qed.

End Float64Bounds.

Module DurationBounds.
Import Float64 Duration Float64Facts DurationFacts Float64Bounds.
Local Open Scope Z_scope.

Lemma Seconds_signed (s : bool) (a : Z) :
  0 <= a ->
  Seconds (cond_Zopp s a) =
    add (of_int (cond_Zopp s (a / Second)))
        (div (of_int (cond_Zopp s (a mod Second))) (of_int 1000000000)).
Proof.
  intros Ha. unfold Seconds. destruct s; simpl cond_Zopp.
  - rewrite Z.quot_opp_l, Z.rem_opp_l by done.
    rewrite Z.quot_div_nonneg, Z.rem_mod_nonneg by done. done.
  - rewrite Z.quot_div_nonneg, Z.rem_mod_nonneg by done. done.
Qed.

(** Which side of the half-way point [mm + 1/2] a mantissa lies on, from
    bounds scaled by [2^t]. *)
Lemma half_way_scaled (M E T mm pl pu : Z) :
  0 < T -> 0 < E ->
  (mm * T + pl) * E <= M * T <= (mm * T + pu) * E ->
  (2 * pu < T -> 2 * M < (2 * mm + 1) * E) /\
  (T <= 2 * pl -> (2 * mm + 1) * E <= 2 * M).
Proof.
  intros HT HE [Hlo Hhi]. split; intros H.
  - apply (Z.mul_lt_mono_pos_r T); [done|].
    assert (2 * pu * E < T * E) by (by apply Z.mul_lt_mono_pos_r). lia.
  - apply (Z.mul_le_mono_pos_r _ _ T); [done|].
    assert (T * E <= 2 * pl * E) by (apply Z.mul_le_mono_nonneg_r; lia). lia.
Qed.

(** [Round] of the minute count [mm + n / Minute] when the fraction is
    known to lie in [[pl / 2^t, pu / 2^t]]. *)
Lemma Round_minutes_between (s : bool) (mm n pl pu t : Z) :
  0 <= mm < 2 ^ 28 -> 0 < n < 60000000000 ->
  0 <= t <= 24 -> 0 <= pl -> 0 < pu <= 2 ^ t ->
  pl * 60000000000 <= n * 2 ^ t <= pu * 60000000000 ->
  let x := Round (add (of_int (cond_Zopp s mm))
                      (div (of_int (cond_Zopp s n)) (of_int 60000000000))) in
  (2 * pu < 2 ^ t -> x = signed_int s mm) /\
  (2 ^ t <= 2 * pl -> x = signed_int s (mm + 1)).
Proof.
  intros Hmm Hn Ht Hpl Hpu Hfrac x. subst x.
  assert (Hpt : 0 < 2 ^ t) by (apply pow2_pos; lia).
  rewrite (of_int_signed s n), (of_int_pos 60000000000) by lia.
  destruct (div_normal_between s n 60000000000 pl pu t)
    as (mq & eq & -> & Hmq & Heq & Hq); try lia.
  assert (HpE : 0 < 2 ^ (- eq)) by (apply pow2_pos; lia).
  destruct (Z.eq_dec mm 0) as [->|Hne].
  - replace (of_int (cond_Zopp s 0)) with (S754_zero false) by (by destruct s).
    change (add (S754_zero false) (S754_finite s mq eq)) with (S754_finite s mq eq).
    destruct (Round_finite_half s mq eq 0) as [Hdown Hup]; [lia|lia|nia|].
    destruct (half_way_scaled (Z.pos mq) (2 ^ (- eq)) (2 ^ t) 0 pl pu)
      as [Hlt Hge]; [done|done|lia|].
    split; intros H; [apply Hdown|apply Hup]; auto.
  - rewrite (of_int_signed s mm) by lia.
    assert (H29 : mm * 2 ^ t + pu < 2 ^ (t + 29)).
    { rewrite pow2_split by lia. nia. }
    destruct (add_normal_between s mm mq eq pl pu t 29)
      as (m & e & -> & He & Hv); try lia.
    assert (HpE' : 0 < 2 ^ (- e)) by (apply pow2_pos; lia).
    destruct (Round_finite_half s m e mm) as [Hdown Hup]; [lia|lia|nia|].
    destruct (half_way_scaled (Z.pos m) (2 ^ (- e)) (2 ^ t) mm pl pu)
      as [Hlt Hge]; [done|done|lia|].
    split; intros H; [apply Hdown|apply Hup]; auto.
Qed.

Lemma rounded_minutes_whole_seconds (s : bool) (mm sec : Z) :
  0 <= mm <= 153722867 -> 0 <= sec < 60 ->
  to_int64 (mul (Round (Minutes (cond_Zopp s (mm * Minute + sec * Second))))
                (of_int 60))
  = cond_Zopp s (60 * (if sec <? 30 then mm else mm + 1)).
Proof.
  intros Hmm Hsec.
  assert (Hdiv : (mm * Minute + sec * Second) / Minute = mm).
  { symmetry. apply (Z.div_unique_pos _ _ mm (sec * Second)); unfold Minute, Second; lia. }
  assert (Hmod : (mm * Minute + sec * Second) mod Minute = sec * Second).
  { symmetry. apply (Z.mod_unique_pos _ _ mm (sec * Second)); unfold Minute, Second; lia. }
  destruct (Z.eq_dec sec 0) as [->|Hs0].
  - destruct (rounded_minutes s (mm * Minute + 0 * Second)) as (k & _ & Hk & ->).
    { unfold Minute, Second. lia. }
    rewrite Hk by (rewrite Hmod; lia). rewrite Hdiv. done.
  - rewrite Minutes_signed by (unfold Minute, Second; lia).
    rewrite Hdiv, Hmod. unfold Second.
    destruct (Z.ltb_spec sec 30) as [Hlt|Hge].
    + destruct (Round_minutes_between s mm (sec * 1000000000) 0 31 6) as [-> _];
        try lia.
      apply to_int64_signed_times_60; lia.
    + destruct (Round_minutes_between s mm (sec * 1000000000) 1 2 1) as [_ ->];
        try lia.
      apply to_int64_signed_times_60; lia.
Qed.

Lemma roundToClosestMinute_whole_seconds_signed (s : bool) (mm sec : Z) :
  0 <= mm -> 0 <= sec < 60 -> mm * Minute + sec * Second <= 2 ^ 63 ->
  roundToClosestMinute (cond_Zopp s (mm * Minute + sec * Second))
  = cond_Zopp s ((if sec <? 30 then mm else mm + 1) * Minute).
Proof.
  intros Hmm Hsec Hle.
  unfold roundToClosestMinute, dmul.
  rewrite rounded_minutes_whole_seconds by (unfold Minute, Second in *; lia).
  set (k := if sec <? 30 then mm else mm + 1).
  assert (Hk : 0 <= k <= 153722867).
  { subst k. unfold Minute, Second in *. destruct (Z.ltb_spec sec 30); lia. }
  replace (Second * cond_Zopp s (60 * k)) with (cond_Zopp s (k * Minute))
    by (unfold Minute; destruct s; simpl; lia).
  apply wrap64_id. unfold in_int64, minInt64, maxInt64, Minute, Second.
  destruct s; simpl; lia.
Qed.

(** [int(d.Seconds())] cuts the fraction off, for magnitudes below [2^23]
    seconds. *)
Lemma to_int64_Seconds_signed (s : bool) (a : Z) :
  0 <= a < 8388608 * Second ->
  to_int64 (Seconds (cond_Zopp s a)) = cond_Zopp s (a / Second).
Proof.
  intros Ha. rewrite Seconds_signed by lia.
  pose proof (Z.mod_pos_bound a Second ltac:(done)) as Hn.
  assert (Hss : 0 <= a / Second < 8388608).
  { split; [apply Z.div_pos; [lia|done]|].
    apply Z.div_lt_upper_bound; [done|]. lia. }
  set (ss := a / Second) in *. set (n := a mod Second) in *.
  unfold Second in Hn.
  destruct (Z.eq_dec n 0) as [Hn0|Hn0].
  - rewrite Hn0.
    replace (of_int (cond_Zopp s 0)) with (of_int 0) by (by destruct s).
    change (div (of_int 0) (of_int 1000000000)) with (S754_zero false).
    rewrite add_zero_r, to_int64_of_int by (destruct s; simpl; lia). done.
  - rewrite (of_int_signed s n), (of_int_pos 1000000000) by lia.
    destruct (div_normal_between s n 1000000000 0 (2 ^ 30 - 1) 30)
      as (mq & eq & -> & Hmq & Heq & Hq); try lia.
    assert (HpE : 0 < 2 ^ (- eq)) by (apply pow2_pos; lia).
    destruct (Z.eq_dec ss 0) as [->|Hne].
    + replace (of_int (cond_Zopp s 0)) with (S754_zero false) by (by destruct s).
      change (add (S754_zero false) (S754_finite s mq eq)) with (S754_finite s mq eq).
      apply to_int64_finite_floor; lia.
    + rewrite (of_int_signed s ss) by lia.
      destruct (add_normal_between s ss mq eq 0 (2 ^ 30 - 1) 30 23)
        as (m & e & -> & He & Hv); try lia.
      assert (HpE' : 0 < 2 ^ (- e)) by (apply pow2_pos; lia).
      apply to_int64_finite_floor; lia.
Qed.

End DurationBounds.

(** ** More on task extraction *)

Section TaskExtractionMore.
Import Worklog Client.
Variable Regexp : Type.
Variable IsRegexSet : Regexp -> bool.
Variable TasksFromSummary : Entry -> Regexp -> list IDNameField.
Variable TasksFromTags : Entry -> list IDNameField -> Regexp -> list IDNameField.
Variable TasksFromProject : Entry -> Regexp -> list IDNameField.

Local Abbreviation extract :=
  (ExtractTasks Regexp IsRegexSet TasksFromSummary TasksFromTags TasksFromProject).
Local Abbreviation fromSummary := (Client.fromSummary Regexp IsRegexSet TasksFromSummary).
Local Abbreviation fromTags := (Client.fromTags Regexp IsRegexSet TasksFromTags).
Local Abbreviation fromProject := (Client.fromProject Regexp IsRegexSet TasksFromProject).

(** The first source, in the order summary, tags, project, that gives
    anything. *)
Lemma extract_cases e tags (opts : TaskExtractionOpts Regexp) :
  let found :=
    match fromSummary e opts with
    | [] => match fromTags e tags opts with
            | [] => fromProject e opts
            | t :: ts => t :: ts
            end
    | t :: ts => t :: ts
    end in
  extract e tags opts
  = fromSummary e opts ++ fromTags e tags opts ++ fromProject e opts \/
  extract e tags opts = found \/
  extract e tags opts = take 1 found.
Proof.
  intros found.
  destruct (String.eqb_spec (MultipleTaskMode opts) SplitAcrossTasks) as [Hs|Hs].
  - left. by apply extract_split.
  - right. rewrite (extract_sequential _ _ _ _ _ e tags opts Hs).
    cbv zeta. fold found.
    match goal with |- context [if ?b then _ else _] => destruct b end; auto.
Qed.

(** X1: with no pattern configured nothing is extracted, whatever the
    mode. *)
Theorem ExtractTasks_without_patterns e tags (opts : TaskExtractionOpts Regexp) :
  IsRegexSet (TaskInSummaryRegex opts) = false ->
  IsRegexSet (TagsAsTasksRegex opts) = false ->
  IsRegexSet (TaskInProjectRegex opts) = false ->
  extract e tags opts = [].
Proof.
  intros Hs Ht Hp. unfold ExtractTasks. rewrite Hs, Ht, Hp. simpl.
  by rewrite andb_false_r.
Qed.

(** X2: in every mode the result is a subsequence of what the configured
    patterns give, summary matches first, then tag matches, then project
    matches: no task is invented and the order is kept. *)
Theorem ExtractTasks_only_returns_matches e tags (opts : TaskExtractionOpts Regexp) :
  extract e tags opts
  `sublist_of` fromSummary e opts ++ fromTags e tags opts ++ fromProject e opts.
Proof.
  assert (Hfound :
    match fromSummary e opts with
    | [] => match fromTags e tags opts with
            | [] => fromProject e opts
            | t :: ts => t :: ts
            end
    | t :: ts => t :: ts
    end `sublist_of`
    fromSummary e opts ++ fromTags e tags opts ++ fromProject e opts).
  { destruct (fromSummary e opts) as [|s ss].
    - destruct (fromTags e tags opts) as [|t ts]; [done|].
      by apply (sublist_inserts_r (fromProject e opts) (t :: ts) (t :: ts)).
    - by apply (sublist_inserts_r (fromTags e tags opts ++ fromProject e opts)
                  (s :: ss) (s :: ss)). }
  destruct (extract_cases e tags opts) as [->|[->| ->]]; [done|done|].
  etrans; [apply sublist_take|exact Hfound].
Qed.

(** X3: in mode [first-only], whichever patterns are configured, the
    result is the first match of the first source that matches at all
    (summary before tags before project), and nothing if none does. *)
Theorem ExtractTasks_first_only_takes_first e tags (opts : TaskExtractionOpts Regexp) :
  MultipleTaskMode opts = FirstTaskOnly ->
  extract e tags opts =
    take 1 match fromSummary e opts with
           | [] => match fromTags e tags opts with
                   | [] => fromProject e opts
                   | t :: ts => t :: ts
                   end
           | t :: ts => t :: ts
           end /\
  length (extract e tags opts) <= 1.
Proof.
  intros Hm.
  rewrite extract_sequential by (rewrite Hm; discriminate).
  rewrite Hm, String.eqb_refl. cbn [andb]. cbv zeta.
  match goal with |- context [Nat.ltb 1 (length ?l)] =>
    set (found := l); destruct (Nat.ltb_spec 1 (length found)) as [Hl|Hl] end.
  - split; [done|]. rewrite length_take. lia.
  - split; [|done]. symmetry. apply take_ge. done.
Qed.

(** X4: in every mode nothing is returned exactly when no configured
    pattern matches anything. *)
Theorem ExtractTasks_empty_iff e tags (opts : TaskExtractionOpts Regexp) :
  extract e tags opts = [] <->
  fromSummary e opts = [] /\ fromTags e tags opts = [] /\ fromProject e opts = [].
Proof.
  destruct (extract_cases e tags opts) as [->|[->| ->]].
  - split.
    + intros H. apply app_eq_nil in H as [Hs H]. apply app_eq_nil in H as [Ht Hp].
      done.
    + by intros (-> & -> & ->).
  - destruct (fromSummary e opts) as [|s ss]; [|split; [done|by intros [? _]]].
    destruct (fromTags e tags opts) as [|t ts]; [|split; [done|by intros (_ & ? & _)]].
    split; [done|by intros (_ & _ & ?)].
  - destruct (fromSummary e opts) as [|s ss]; [|split; [done|by intros [? _]]].
    destruct (fromTags e tags opts) as [|t ts]; [|split; [done|by intros (_ & ? & _)]].
    destruct (fromProject e opts) as [|p ps]; [done|].
    split; [done|by intros (_ & _ & ?)].
Qed.
End TaskExtractionMore.

(** ** More on the upload goroutines *)

Section UploadMore.
Import Worklog Client TempoCloud Traces.
Variable Url : Type.
Variable Authenticator : Type.
Variable URL : HTTPClient Url -> string -> string + error.
Variable ErrUploadEntries : error.
Variable Unmarshal : string -> JiraIssue + error.
Variable formatDate : Time -> string.
Variable formatTime : Time -> string.
Variable showUploadEntry : UploadEntry -> string.

Local Abbreviation group_trace :=
  (uploadGroup Url Authenticator ErrUploadEntries Unmarshal formatDate
     formatTime showUploadEntry).
Local Abbreviation result :=
  (entryResult ErrUploadEntries Unmarshal formatDate formatTime showUploadEntry).
Local Abbreviation payload := (entryPayload Unmarshal formatDate formatTime).
Local Abbreviation upload :=
  (UploadEntries Url Authenticator URL ErrUploadEntries Unmarshal formatDate
     formatTime showUploadEntry).

Lemma imap_shift {A B} (f : nat -> A -> B) (i0 : nat) (l : list A) :
  imap (fun i x => f (S i0 + i)%nat x) l
  = imap ((fun i x => f (i0 + i)%nat x) ∘ S) l.
Proof. apply imap_ext. intros i x _. simpl. by rewrite Nat.add_succ_r. Qed.

Lemma stopped_uploadGroup c createURL getIssueURL opts env i0 entries :
  stopped (group_trace c createURL getIssueURL opts env i0 entries)
  = imap (fun i entry => (entry, result opts (env (i0 + i)%nat) entry)) entries.
Proof.
  revert i0. induction entries as [|entry rest IH]; intros i0; [done|].
  cbn [uploadGroup imap]. unfold stopped in *.
  rewrite Nat.add_0_r. unfold entryResult at 1.
  rewrite <- (imap_shift (fun i entry => (entry, result opts (env i) entry))).
  destruct (jiraResp (env i0)) as [resp|err]; simpl.
  - destruct (Unmarshal resp) as [issue|err]; simpl; by rewrite IH.
  - by rewrite IH.
Qed.

(** X5: the tracker of every entry of a group is stopped, in order, with
    exactly the error that the entry publishes on the channel (nil on
    success). *)
Theorem uploadGroup_stops_each_tracker_with_sent_error
    c createURL getIssueURL opts env entries :
  let trace := group_trace c createURL getIssueURL opts env 0 entries in
  (stopped trace).*1 = entries /\
  (stopped trace).*2 = sent trace.
Proof.
  cbv zeta. rewrite stopped_uploadGroup.
  rewrite (sent_uploadGroup Url Authenticator ErrUploadEntries Unmarshal
             formatDate formatTime showUploadEntry).
  rewrite !fmap_imap. split.
  - rewrite <- (list_fmap_id entries) at 2. rewrite <- imap_const.
    by apply imap_ext.
  - by apply imap_ext.
Qed.

Lemma length_omap_le {A B} (f : A -> option B) (l : list A) :
  length (omap f l) <= length l.
Proof.
  induction l as [|x l IH]; [done|].
  change (omap f (x :: l))
    with (match f x with Some y => y :: omap f l | None => omap f l end).
  destruct (f x); simpl; lia.
Qed.

Lemma posted_uploadGroup c createURL getIssueURL opts env i0 entries :
  posted (group_trace c createURL getIssueURL opts env i0 entries)
  = omap id (imap (fun i entry => payload opts (env (i0 + i)%nat) entry) entries).
Proof.
  revert i0. induction entries as [|entry rest IH]; intros i0; [done|].
  cbn [uploadGroup imap]. unfold posted in *.
  rewrite Nat.add_0_r. unfold entryPayload at 1.
  rewrite <- (imap_shift (fun i entry => payload opts (env i) entry)).
  destruct (jiraResp (env i0)) as [resp|err]; simpl.
  - destruct (Unmarshal resp) as [issue|err]; simpl; by rewrite IH.
  - by rewrite IH.
Qed.

(** X6: the worklogs a group posts to Tempo are, in order, those of the
    entries whose issue lookup and decoding succeeded, built by the duration
    policy; an entry whose lookup or decoding fails is never posted, and
    what Tempo answers has no influence on what is posted next. *)
Theorem uploadGroup_posts_only_resolved_entries
    c createURL getIssueURL opts env (entries : list Entry) :
  let trace := group_trace c createURL getIssueURL opts env 0 entries in
  posted trace
  = omap id (imap (fun i entry => payload opts (env i) entry) entries) /\
  (forall i entry,
     entries !! i = Some entry -> payload opts (env i) entry = None ->
     length (posted trace) < length entries).
Proof.
  cbv zeta. rewrite posted_uploadGroup. cbn [Nat.add]. split; [done|].
  intros i entry Hi Hnone.
  revert i env Hi Hnone. induction entries as [|e rest IH]; intros i env Hi Hnone.
  - done.
  - rewrite imap_cons. destruct i as [|i]; simpl in Hi.
    + inversion Hi; subst e. simpl. rewrite Hnone. simpl.
      apply Nat.lt_succ_r. etrans; [apply length_omap_le|]. by rewrite length_imap.
    + specialize (IH i (env ∘ S) Hi Hnone). simpl.
      destruct (payload opts (env 0%nat) e); simpl.
      * apply -> Nat.succ_lt_mono. exact IH.
      * etrans; [exact IH|]. lia.
Qed.

(** X7: every request of a group is either an issue lookup (GET on the
    issue URL followed by the entry's task name, Jira credentials, no
    body) or a worklog creation (POST on the creation URL, Tempo
    credentials, with a body); all carry the client's timeout and the JSON
    content type.  Credentials never go to the other service. *)
Theorem uploadGroup_requests_are_well_formed
    c createURL getIssueURL opts env entries :
  Forall
    (fun req =>
       (lookupRequest Url Authenticator c getIssueURL entries req \/ createRequest Url Authenticator c createURL req) /\
       RequestTimeout _ req = Timeout (clientOpts _ _ c) /\
       Headers _ req = jsonHeaders)
    (requests (group_trace c createURL getIssueURL opts env 0 entries)).
Proof.
  generalize 0%nat as i0.
  assert (Hmono : forall l e (req : HTTPRequestOpts Authenticator),
            lookupRequest Url Authenticator c getIssueURL l req ->
            lookupRequest Url Authenticator c getIssueURL (e :: l) req).
  { intros l e req (? & ? & ? & entry & Hin & ?).
    repeat split; try done. exists entry. split; [by right|done]. }
  induction entries as [|entry rest IH]; intros i0; [constructor|].
  assert (Hrest : Forall
    (fun req =>
       (lookupRequest Url Authenticator c getIssueURL (entry :: rest) req
        \/ createRequest Url Authenticator c createURL req) /\
       RequestTimeout _ req = Timeout (clientOpts _ _ c) /\
       Headers _ req = jsonHeaders)
    (requests (group_trace c createURL getIssueURL opts env (S i0) rest))).
  { eapply Forall_impl; [apply IH|]. intros req [[H|H] ?]; split; auto. }
  assert (Hget : forall url,
    url = getIssueURL +:+ Name (Task entry) ->
    lookupRequest Url Authenticator c getIssueURL (entry :: rest)
      {| Method := "GET"; RequestUrl := url; Auth := jiraAuthenticator _ _ c;
         RequestTimeout := Timeout (clientOpts _ _ c); Data := None;
         Headers := jsonHeaders |}).
  { intros url ->. repeat split. exists entry. split; [by left|done]. }
  cbn [uploadGroup]. unfold requests in *. simpl.
  destruct (jiraResp (env i0)) as [resp|err]; simpl.
  - destruct (Unmarshal resp) as [issue|err]; simpl.
    + constructor; [split; [left; by apply Hget|done]|].
      constructor; [|exact Hrest].
      split; [right|done]. repeat split. by eexists.
    + constructor; [split; [left; by apply Hget|done]|exact Hrest].
  - constructor; [split; [left; by apply Hget|done]|exact Hrest].
Qed.

Lemma entryResult_None opts r entry :
  result opts r entry = None <->
  exists resp issue,
    jiraResp r = inl resp /\ Unmarshal resp = inl issue /\ tempoErr r = None.
Proof.
  unfold entryResult. destruct (jiraResp r) as [resp|err].
  - destruct (Unmarshal resp) as [issue|err] eqn:Hu.
    + destruct (tempoErr r) as [err|].
      * split; [done|]. by intros (? & ? & ? & ? & ?).
      * split; [|done]. intros _. exists resp, issue. done.
    + split; [done|]. intros (resp' & issue & Hr & Hu' & _).
      inversion Hr; subst resp'. congruence.
  - split; [done|]. by intros (? & ? & ? & _).
Qed.

(** X8: the value an entry publishes is nil exactly when its issue lookup,
    the decoding of the answer and the creation request all succeeded;
    every failure yields a non-nil error. *)
Theorem uploadGroup_publishes_nil_iff_success
    c createURL getIssueURL opts env (entries : list Entry) i entry :
  entries !! i = Some entry ->
  let trace := group_trace c createURL getIssueURL opts env 0 entries in
  sent trace !! i = Some (result opts (env i) entry) /\
  (sent trace !! i = Some None <->
   exists resp issue,
     jiraResp (env i) = inl resp /\ Unmarshal resp = inl issue /\
     tempoErr (env i) = None).
Proof.
  intros Hi trace. subst trace.
  rewrite (sent_uploadGroup Url Authenticator ErrUploadEntries Unmarshal
             formatDate formatTime showUploadEntry).
  rewrite list_lookup_imap, Hi. cbn [Nat.add fmap option_fmap option_map].
  split; [done|]. rewrite <- entryResult_None.
  split; [by intros [= ->]|by intros ->].
Qed.
End UploadMore.

(** ** What the reader of the error channel receives *)

Section MergeMore.
Import TempoCloud.
Context {A : Type}.

Lemma concat_insert_tail (ls : list (list A)) (i : nat) (x : A) (l : list A) :
  ls !! i = Some (x :: l) -> concat ls ≡ₚ x :: concat (<[i := l]> ls).
Proof.
  revert i. induction ls as [|l0 ls IH]; intros [|i] Hi; simplify_eq/=.
  - done.
  - rewrite (IH i Hi). by rewrite Permutation_middle.
Qed.

(** A merged stream holds the elements of its sources, no more, no less. *)
Lemma Merge_Permutation (ls : list (list A)) (out : list A) :
  Merge ls out -> out ≡ₚ concat ls.
Proof.
  induction 1 as [ls Hall|ls i x l out Hi _ IH].
  - induction Hall as [|l ls -> _ IH]; [done|]. exact IH.
  - rewrite (concat_insert_tail ls i x l Hi). by constructor.
Qed.

End MergeMore.

Section DeliveryMore.
Import Worklog Client TempoCloud.
Variable Url : Type.
Variable Authenticator : Type.
Variable URL : HTTPClient Url -> string -> string + error.
Variable ErrUploadEntries : error.
Variable Unmarshal : string -> JiraIssue + error.
Variable formatDate : Time -> string.
Variable formatTime : Time -> string.
Variable showUploadEntry : UploadEntry -> string.

Local Abbreviation result :=
  (entryResult ErrUploadEntries Unmarshal formatDate formatTime showUploadEntry).
Local Abbreviation upload :=
  (UploadEntries Url Authenticator URL ErrUploadEntries Unmarshal formatDate
     formatTime showUploadEntry).

(** The results of the entries of one group, in the group's order. *)
Local Abbreviation groupResults opts env :=
  (fun g : string * Entries =>
     imap (fun i entry => result opts (env g.1 i) entry) g.2).

Lemma Delivered_groups c env entries opts createURL getIssueURL stream :
  URL (tempoHttpClient Url Authenticator c) TempoPathWorklogCreate = inl createURL ->
  URL (jiraHttpClient Url Authenticator c) JiraPathIssue = inl getIssueURL ->
  Delivered (upload c env entries opts) stream ->
  Merge ([] :: (groupResults opts env <$> map_to_list (GroupByTask entries)))
        stream.
Proof.
  intros Hc Hg. unfold Delivered, UploadEntries. rewrite Hc, Hg.
  cbn [caller groupTasks]. rewrite <- list_fmap_compose.
  rewrite (list_fmap_ext _ (groupResults opts env) (map_to_list (GroupByTask entries))).
  - done.
  - intros i [k g] _. simpl.
    apply (sent_uploadGroup Url Authenticator ErrUploadEntries Unmarshal
             formatDate formatTime showUploadEntry).
Qed.

(** X9: once both URLs are built, whatever the interleaving of the group
    goroutines, the stream received on the error channel consists of
    exactly the per-entry results of all groups: none is lost, duplicated
    or invented. *)
Theorem delivered_stream_holds_exactly_the_results
    c env entries opts createURL getIssueURL stream :
  URL (tempoHttpClient Url Authenticator c) TempoPathWorklogCreate = inl createURL ->
  URL (jiraHttpClient Url Authenticator c) JiraPathIssue = inl getIssueURL ->
  Delivered (upload c env entries opts) stream ->
  stream ≡ₚ concat (groupResults opts env <$> map_to_list (GroupByTask entries)).
Proof.
  intros Hc Hg Hd.
  apply (Delivered_groups _ _ _ _ _ _ _ Hc Hg) in Hd.
  by apply Merge_Permutation in Hd.
Qed.

End DeliveryMore.

(** ** Construction of the tempo-cloud client *)

Section NewClientMore.
Import Client TempoCloud Root.
Variable Url : Type.
Variable Authenticator : Type.
Variable url_Parse : string -> Url + error.
Variable NewTokenAuth : string -> string -> string -> Authenticator + error.
Variable NewBasicAuth : string -> string -> Authenticator + error.
Variable DefaultRequestTimeout : Z.
Variable TempoImpl : Type.
Variable tempo_NewUploader :
  TempoClientOpts -> option (Uploader Url Authenticator TempoImpl) * option error.

Local Abbreviation new := (newClient Url Authenticator url_Parse NewTokenAuth NewBasicAuth).
Local Abbreviation get :=
  (getUploader Url Authenticator url_Parse NewTokenAuth NewBasicAuth
     DefaultRequestTimeout TempoImpl tempo_NewUploader).
Local Abbreviation tokenAuthOf opts :=
  (NewTokenAuth (Header (TempoAuth opts)) (TokenName (TempoAuth opts))
     (Token (TempoAuth opts))).
Local Abbreviation basicAuthOf opts :=
  (NewBasicAuth (Username (JiraAuth opts)) (Password (JiraAuth opts))).

(** [newClient] returns a client or an error, never both, never neither. *)
Lemma newClient_some_or_error (opts : ClientOpts) :
  (exists c, new opts = (Some c, None)) \/
  (exists err, new opts = (None, Some err)).
Proof.
  unfold newClient.
  destruct (url_Parse (TempoBaseURL opts)) as [tu|e1]; [|right; by eexists].
  destruct (url_Parse (JiraBaseURL opts)) as [ju|e2]; [|right; by eexists].
  destruct (tokenAuthOf opts) as [ta|e3]; [|right; by eexists].
  destruct (basicAuthOf opts) as [ja|e4]; [|right; by eexists].
  left. by eexists.
Qed.

(** X11: [newClient] returns either a client and no error, or no client
    and an error, never both and never neither; it returns a client exactly
    when both base URLs parse and both authenticators can be built, and the
    client then holds these four values and the base options. *)
Theorem newClient_client_xor_error (opts : ClientOpts) :
  ((exists c, new opts = (Some c, None)) \/
   (exists err, new opts = (None, Some err))) /\
  (forall c,
     new opts = (Some c, None) <->
     exists tempoURL jiraURL tempoAuth jiraAuth,
       url_Parse (TempoBaseURL opts) = inl tempoURL /\
       url_Parse (JiraBaseURL opts) = inl jiraURL /\
       tokenAuthOf opts = inl tempoAuth /\
       basicAuthOf opts = inl jiraAuth /\
       c = {| clientOpts := baseClientOpts opts;
              tempoHttpClient := {| BaseURL := tempoURL |};
              jiraHttpClient := {| BaseURL := jiraURL |};
              tempoAuthenticator := tempoAuth;
              jiraAuthenticator := jiraAuth |}).
Proof.
  unfold newClient.
  destruct (url_Parse (TempoBaseURL opts)) as [tu|e1];
    [|split; [right; by eexists|intros c; split; [done|by intros (?&?&?&?&?&_)]]].
  destruct (url_Parse (JiraBaseURL opts)) as [ju|e2];
    [|split; [right; by eexists|intros c; split; [done|by intros (?&?&?&?&_&?&_)]]].
  destruct (tokenAuthOf opts) as [ta|e3];
    [|split; [right; by eexists|intros c; split; [done|by intros (?&?&?&?&_&_&?&_)]]].
  destruct (basicAuthOf opts) as [ja|e4];
    [|split; [right; by eexists|intros c; split; [done|by intros (?&?&?&?&_&_&_&?&_)]]].
  split; [left; by eexists|]. intros c. split.
  - intros [= <-]. by exists tu, ju, ta, ja.
  - intros (?&?&?&?&[= <-]&[= <-]&[= <-]&[= <-]&->). done.
Qed.

(** X12: when [newClient] fails, the error is the one of the first step
    that fails, in the order Tempo URL, Jira URL, token authenticator,
    basic authenticator; later steps are not looked at. *)
Theorem newClient_reports_first_failure (opts : ClientOpts) (err : error) :
  new opts = (None, Some err) <->
  url_Parse (TempoBaseURL opts) = inr err \/
  (exists tempoURL, url_Parse (TempoBaseURL opts) = inl tempoURL) /\
  (url_Parse (JiraBaseURL opts) = inr err \/
   (exists jiraURL, url_Parse (JiraBaseURL opts) = inl jiraURL) /\
   (tokenAuthOf opts = inr err \/
    (exists tempoAuth, tokenAuthOf opts = inl tempoAuth) /\
    basicAuthOf opts = inr err)).
Proof.
  unfold newClient.
  destruct (url_Parse (TempoBaseURL opts)) as [tu|e1].
  2:{ split; [intros [= ->]; by left|]. by intros [[= ->]|[[? ?] _]]. }
  destruct (url_Parse (JiraBaseURL opts)) as [ju|e2].
  2:{ split; [intros [= ->]; right; split; [by eexists|by left]|].
      by intros [?|[_ [[= ->]|[[? ?] _]]]]. }
  destruct (tokenAuthOf opts) as [ta|e3].
  2:{ split.
      - intros [= ->]. right. split; [by eexists|]. right. split; [by eexists|].
        by left.
      - by intros [?|[_ [?|[_ [[= ->]|[[? ?] _]]]]]]. }
  destruct (basicAuthOf opts) as [ja|e4].
  2:{ split.
      - intros [= ->]. right. split; [by eexists|]. right. split; [by eexists|].
        right. split; [by eexists|done].
      - by intros [?|[_ [?|[_ [?|[_ [= ->]]]]]]]. }
  split; [done|]. by intros [?|[_ [?|[_ [?|[_ ?]]]]]].
Qed.

(** X13: for the target [tempo-cloud] the uploader returned is never the
    nil interface: it always wraps a [*tempoClient], and that pointer is nil
    exactly when an error is returned as well. *)
Theorem getUploader_tempo_cloud_is_never_nil (viper : gmap string string) :
  GetString viper "target" = "tempo-cloud" ->
  exists c err,
    get viper = (Some (TempoCloudUploader Url Authenticator TempoImpl c), err) /\
    (c = None <-> is_Some err).
Proof.
  intros H. unfold getUploader. cbv zeta. rewrite H.
  change (String.eqb "tempo-cloud" "tempo") with false.
  change (String.eqb "tempo-cloud" "tempo-cloud") with true.
  cbv iota. unfold tempocloud_NewUploader.
  match goal with |- context [newClient _ _ _ _ _ ?o] =>
    destruct (newClient_some_or_error o) as [[c Hc]|[err Hc]]; rewrite Hc end.
  - exists (Some c), None. split; [done|]. split; [done|]. by intros [? ?].
  - exists None, (Some err). split; [done|]. split; [by eexists|done].
Qed.

End NewClientMore.

(** ** The mock server of the tempo client tests *)

Section MockServerFacts.
Import TempoTest.
Variable Decoded : Type.
Variable UploadEntry : Type.
Variable same : Decoded -> UploadEntry -> bool.

Lemma expectFrom_in_range data n i (rest : list UploadEntry) :
  (i + length rest = n)%nat -> expectFrom Decoded UploadEntry same data n i rest = false.
Proof.
  revert i. induction rest as [|entry rest IH]; intros i Hn; [done|].
  simpl in *. destruct (same data entry); [done|].
  destruct (Nat.eqb_spec i n) as [->|_]; [lia|]. simpl.
  apply IH. lia.
Qed.

(** X14: the mock server's check that a posted worklog is one of the
    expected ones can never fail: the index of the loop never equals the
    number of expected entries, so [t.Fatal] is unreachable, also when the
    posted worklog matches none of them. *)
Theorem mock_upload_entry_check_never_fails data (allEntries : list UploadEntry) :
  uploadEntryCheckFails Decoded UploadEntry same data allEntries = false.
Proof. apply expectFrom_in_range. done. Qed.
End MockServerFacts.

(** ** More on the duration policy *)

Section DurationPolicyMore.
Import Float64 Duration Worklog Client TempoCloud DurationFacts DurationBounds.
Local Open Scope Z_scope.
Variable formatDate : Time -> string.
Variable formatTime : Time -> string.

Local Abbreviation uploadEntry := (makeUploadEntry formatDate formatTime).

Lemma signed_magnitude (d : Z) : d = cond_Zopp (d <? 0) (Z.abs d).
Proof. destruct (Z.ltb_spec d 0); simpl; lia. Qed.

Lemma sgn_times (d x : Z) :
  (Z.abs d = 0 -> x = 0) -> Z.sgn d * x = cond_Zopp (d <? 0) x.
Proof. intros H. destruct (Z.ltb_spec d 0); simpl; [|destruct (Z.eq_dec d 0)]; nia. Qed.

(** X15: on a whole number of seconds, rounding to the closest minute is
    exactly rounding half away from zero: the minutes of the magnitude,
    plus one when the remaining seconds are 30 or more, with the sign of
    the argument. *)
Theorem rounding_whole_seconds_is_half_away_from_zero (d : Duration) :
  in_int64 d -> d mod Second = 0 ->
  roundToClosestMinute d
  = Z.sgn d * ((Z.abs d / Minute
                + (if 30 * Second <=? Z.abs d mod Minute then 1 else 0))
               * Minute).
Proof.
  unfold in_int64, minInt64, maxInt64. intros Hd Hs.
  set (a := Z.abs d).
  assert (Ha : 0 <= a <= 2 ^ 63) by (subst a; lia).
  assert (Has : a mod Second = 0).
  { apply Z.mod_divide; [done|]. apply Z.divide_abs_r.
    apply Z.mod_divide; done. }
  pose proof (Z.div_mod a Minute ltac:(done)) as Hdm.
  pose proof (Z.mod_pos_bound a Minute ltac:(done)) as Hn.
  assert (Hmm : 0 <= a / Minute) by (apply Z.div_pos; [lia|done]).
  set (mm := a / Minute) in *. set (n := a mod Minute) in *.
  assert (Hns : n mod Second = 0).
  { replace n with (a + (- mm * 60) * Second) by (unfold Minute in *; lia).
    by rewrite Z.mod_add. }
  pose proof (whole_multiple n Second ltac:(done) Hns) as Hn'.
  set (sec := n / Second) in *.
  assert (Hsec : 0 <= sec < 60) by (unfold Minute, Second in *; lia).
  rewrite sgn_times.
  2:{ fold a. intros H0. rewrite H0 in *. 
      assert (mm = 0 /\ n = 0) as [-> ->] by (unfold Minute, Second in *; lia).
      done. }
  rewrite (signed_magnitude d) at 1. fold a.
  replace a with (mm * Minute + sec * Second) by lia.
  rewrite roundToClosestMinute_whole_seconds_signed by lia.
  f_equal. f_equal. rewrite Hn'.
  destruct (Z.ltb_spec sec 30), (Z.leb_spec (30 * Second) (sec * Second));
    unfold Second in *; lia.
Qed.

(** Below [2^23] seconds of magnitude the conversion cuts the fraction of
    a second off. *)
Lemma wholeSeconds_quot (d : Duration) :
  Z.abs d < 8388608 * Second -> wholeSeconds d = Z.quot d Second.
Proof.
  intros Hd. unfold wholeSeconds.
  rewrite (signed_magnitude d) at 1.
  rewrite to_int64_Seconds_signed by lia.
  destruct (Z.ltb_spec d 0); simpl.
  - rewrite <- (Z.opp_involutive d) at 2.
    rewrite Z.quot_opp_l, Z.quot_div_nonneg by (done || lia).
    f_equal. f_equal. lia.
  - rewrite Z.quot_div_nonneg by (done || lia). f_equal. lia.
Qed.

(** X16: for magnitudes below [2^23] seconds (about 97 days),
    [int(d.Seconds())] is the number of whole seconds, the fraction being
    cut off towards zero: the magnitude of the result is the largest number
    of seconds not above the magnitude of the duration. *)
Theorem wholeSeconds_truncates (d : Duration) :
  Z.abs d < 8388608 * Second ->
  wholeSeconds d = Z.quot d Second /\
  Z.abs (wholeSeconds d) * Second <= Z.abs d
  < (Z.abs (wholeSeconds d) + 1) * Second.
Proof.
  intros Hd. rewrite wholeSeconds_quot by done. split; [done|].
  rewrite <- (Z.quot_abs d Second) by done.
  change (Z.abs Second) with Second.
  rewrite Z.quot_div_nonneg by (done || lia).
  pose proof (Z.div_mod (Z.abs d) Second ltac:(done)).
  pose proof (Z.mod_pos_bound (Z.abs d) Second ltac:(done)).
  lia.
Qed.

(** X17: when the duration is treated as billed, all the time sent is
    billable: the billable seconds equal the seconds spent and the
    unbillable duration is zero, with or without rounding, for all
    durations. *)
Theorem folded_time_is_all_billable entry issue opts :
  TreatDurationAsBilled opts = true ->
  BillableSeconds (uploadEntry entry issue opts)
  = TimeSpentSeconds (uploadEntry entry issue opts) /\
  postUnbillable opts entry = 0.
Proof.
  intros Hfold.
  rewrite BillableSeconds_makeUploadEntry, TimeSpentSeconds_makeUploadEntry.
  unfold postTotal, postBillable, postUnbillable, durationPolicy.
  rewrite Hfold. destruct (RoundToClosestMinute opts); simpl.
  - rewrite roundToClosestMinute_0, dadd_0_r
      by (apply roundToClosestMinute_in_int64, dadd_in_int64). done.
  - by rewrite (dadd_comm (BillableDuration entry)).
Qed.

Lemma wholeSeconds_minutes (k : Z) :
  in_int64 (k * Minute) -> wholeSeconds (k * Minute) = 60 * k.
Proof.
  intros Hk. replace (k * Minute) with (60 * k * Second) in *
    by (unfold Minute; lia).
  by apply wholeSeconds_multiple.
Qed.

(** X18: with rounding, both durations kept by the policy are whole
    numbers of minutes, so the billable seconds sent are a multiple of 60,
    and so are the seconds spent unless the sum of the two rounded
    durations overflows. *)
Theorem rounded_components_are_whole_minutes entry issue opts :
  RoundToClosestMinute opts = true ->
  in_int64 (BillableDuration entry) ->
  in_int64 (UnbillableDuration entry) ->
  exists kb ku,
    postBillable opts entry = kb * Minute /\
    postUnbillable opts entry = ku * Minute /\
    BillableSeconds (uploadEntry entry issue opts) = 60 * kb /\
    (in_int64 ((kb + ku) * Minute) ->
     TimeSpentSeconds (uploadEntry entry issue opts) = 60 * (kb + ku)).
Proof.
  intros Hround Hb Hu.
  rewrite BillableSeconds_makeUploadEntry, TimeSpentSeconds_makeUploadEntry.
  unfold postTotal, postBillable, postUnbillable, durationPolicy.
  rewrite Hround.
  set (b := if TreatDurationAsBilled opts
            then dadd (UnbillableDuration entry) (BillableDuration entry)
            else BillableDuration entry).
  set (u := if TreatDurationAsBilled opts then 0 else UnbillableDuration entry).
  assert (Hbi : in_int64 b).
  { subst b. destruct (TreatDurationAsBilled opts); [apply dadd_in_int64|done]. }
  assert (Hui : in_int64 u).
  { subst u. destruct (TreatDurationAsBilled opts); [done|done]. }
  replace (if TreatDurationAsBilled opts
           then (dadd (UnbillableDuration entry) (BillableDuration entry), 0)
           else (BillableDuration entry, UnbillableDuration entry))
    with (b, u) by (subst b u; by destruct (TreatDurationAsBilled opts)).
  simpl.
  destruct (roundToClosestMinute_multiple b Hbi) as (kb & -> & Hkb & _).
  destruct (roundToClosestMinute_multiple u Hui) as (ku & -> & Hku & _).
  exists kb, ku. split; [done|]. split; [done|].
  split; [by apply wholeSeconds_minutes|].
  intros Hsum. unfold dadd. rewrite <- Z.mul_add_distr_r, wrap64_id by done.
  by apply wholeSeconds_minutes.
Qed.

Lemma wholeSeconds_floor (d : Duration) :
  0 <= d < 8388608 * Second -> wholeSeconds d = d / Second.
Proof.
  intros Hd. rewrite wholeSeconds_quot by lia.
  apply Z.quot_div_nonneg; [lia|done].
Qed.

(** X19: without any flag and for non-negative durations of less than
    [2^23] seconds in total, the seconds sent are the floors of the billable
    duration and of the total; the seconds spent exceed the billable plus
    the unbillable whole seconds by one exactly when the two cut-off
    fractions add up to a second, and by nothing otherwise. *)
Theorem unrounded_seconds_are_floors entry issue opts :
  TreatDurationAsBilled opts = false ->
  RoundToClosestMinute opts = false ->
  0 <= BillableDuration entry ->
  0 <= UnbillableDuration entry ->
  BillableDuration entry + UnbillableDuration entry < 8388608 * Second ->
  BillableSeconds (uploadEntry entry issue opts)
  = BillableDuration entry / Second /\
  TimeSpentSeconds (uploadEntry entry issue opts)
  = (BillableDuration entry + UnbillableDuration entry) / Second /\
  TimeSpentSeconds (uploadEntry entry issue opts)
  = BillableSeconds (uploadEntry entry issue opts)
    + wholeSeconds (postUnbillable opts entry)
    + (if Second <=? BillableDuration entry mod Second
                     + UnbillableDuration entry mod Second
       then 1 else 0).
Proof.
  intros Hfold Hround Hb Hu Hsum.
  rewrite BillableSeconds_makeUploadEntry, TimeSpentSeconds_makeUploadEntry.
  unfold postTotal, postBillable, postUnbillable, durationPolicy.
  rewrite Hfold, Hround. simpl.
  set (b := BillableDuration entry) in *. set (u := UnbillableDuration entry) in *.
  unfold dadd. rewrite wrap64_id
    by (unfold in_int64, minInt64, maxInt64, Second in *; lia).
  rewrite !wholeSeconds_floor by lia.
  split; [done|]. split; [done|].
  pose proof (Z.div_mod b Second ltac:(done)) as Hdb.
  pose proof (Z.div_mod u Second ltac:(done)) as Hdu.
  pose proof (Z.mod_pos_bound b Second ltac:(done)) as Hmb.
  pose proof (Z.mod_pos_bound u Second ltac:(done)) as Hmu.
  destruct (Z.leb_spec Second (b mod Second + u mod Second)) as [Hc|Hc].
  - symmetry. apply (Z.div_unique_pos _ _ _ (b mod Second + u mod Second - Second));
      lia.
  - symmetry. apply (Z.div_unique_pos _ _ _ (b mod Second + u mod Second)); lia.
Qed.

(** X20: for non-negative durations of less than [2^23] seconds in total
    and every flag combination, the billable seconds sent are
    non-negative and never exceed the seconds spent. *)
Theorem billable_seconds_within_time_spent entry issue opts :
  0 <= BillableDuration entry ->
  0 <= UnbillableDuration entry ->
  BillableDuration entry + UnbillableDuration entry < 8388608 * Second ->
  0 <= BillableSeconds (uploadEntry entry issue opts)
    <= TimeSpentSeconds (uploadEntry entry issue opts).
Proof.
  intros Hb Hu Hsum.
  rewrite BillableSeconds_makeUploadEntry, TimeSpentSeconds_makeUploadEntry.
  unfold postTotal, postBillable, postUnbillable, durationPolicy.
  set (b := BillableDuration entry) in *. set (u := UnbillableDuration entry) in *.
  assert (Hbi : in_int64 b) by (unfold in_int64, minInt64, maxInt64, Second in *; lia).
  assert (Hui : in_int64 u) by (unfold in_int64, minInt64, maxInt64, Second in *; lia).
  assert (Hsi : in_int64 (u + b))
    by (unfold in_int64, minInt64, maxInt64, Second in *; lia).
  assert (Hrounded : forall x, 0 <= x < 8388608 * Second ->
            exists k, roundToClosestMinute x = k * Minute /\ 0 <= k /\
                      k * Minute <= x + Minute).
  { intros x Hx.
    destruct (roundToClosestMinute_multiple x) as (k & Hk & _ & _ & Habs & Hk0 & _).
    { unfold in_int64, minInt64, maxInt64, Second in *; lia. }
    exists k. split; [done|]. split; [lia|lia]. }
  destruct (TreatDurationAsBilled opts), (RoundToClosestMinute opts); simpl.
  - rewrite roundToClosestMinute_0.
    replace (dadd u b) with (u + b) by (unfold dadd; by rewrite wrap64_id).
    destruct (Hrounded (u + b) ltac:(lia)) as (k & Hk & Hk0 & Hkle).
    rewrite dadd_0_r by (apply roundToClosestMinute_in_int64; done).
    rewrite Hk, wholeSeconds_minutes; [lia|].
    unfold in_int64, minInt64, maxInt64, Minute, Second in *. lia.
  - rewrite (dadd_comm b). unfold dadd. rewrite wrap64_id by done.
    rewrite wholeSeconds_floor by lia.
    split; [|lia]. apply Z.div_pos; [lia|done].
  - destruct (Hrounded b ltac:(lia)) as (kb & -> & Hkb0 & Hkb).
    destruct (Hrounded u ltac:(lia)) as (ku & -> & Hku0 & Hku).
    unfold dadd. rewrite <- Z.mul_add_distr_r.
    rewrite wrap64_id
      by (unfold in_int64, minInt64, maxInt64, Minute, Second in *; lia).
    rewrite !wholeSeconds_minutes
      by (unfold in_int64, minInt64, maxInt64, Minute, Second in *; lia).
    lia.
  - unfold dadd. rewrite wrap64_id
      by (unfold in_int64, minInt64, maxInt64, Second in *; lia).
    rewrite !wholeSeconds_floor by lia.
    split; [apply Z.div_pos; [lia|done]|].
    apply Z.div_le_mono; [done|lia].
Qed.
End DurationPolicyMore.

(** ** Further properties, tried on the sample data *)

Section RoundingInGeneral.
Import Float64 Duration DurationFacts.
Local Open Scope Z_scope.

(** X21: for every [int64] duration, sub-second parts included, rounding
    to the closest minute yields a whole number of minutes that is still an
    [int64], has the sign of the argument and lies within one minute of
    it. *)
Theorem rounding_stays_within_a_minute (d : Duration) :
  in_int64 d ->
  roundToClosestMinute d mod Minute = 0 /\
  in_int64 (roundToClosestMinute d) /\
  Z.abs (roundToClosestMinute d - d) <= Minute /\
  (0 <= d -> 0 <= roundToClosestMinute d) /\
  (d <= 0 -> roundToClosestMinute d <= 0).
Proof.
  intros Hd.
  destruct (roundToClosestMinute_multiple d Hd)
    as (k & -> & Hk & _ & Habs & Hpos & Hneg).
  split; [by apply Z.mod_mul|]. split; [done|]. split; [done|].
  unfold Minute, Second in *. split; intros H; [specialize (Hpos H)|specialize (Hneg H)]; lia.
Qed.
End RoundingInGeneral.

Section MoreExamples.
Local Open Scope Z_scope.

Lemma rounding_stays_within_a_minute_witness :
  let d := 89 * Duration.Second + 999999999 in
  Duration.roundToClosestMinute d mod Duration.Minute = 0 /\
  Duration.in_int64 (Duration.roundToClosestMinute d) /\
  Z.abs (Duration.roundToClosestMinute d - d) <= Duration.Minute /\
  (0 <= d -> 0 <= Duration.roundToClosestMinute d) /\
  (d <= 0 -> Duration.roundToClosestMinute d <= 0).
Proof.
  apply (rounding_stays_within_a_minute (89 * Duration.Second + 999999999)).
  vm_compute. split; discriminate.
Defined.

Lemma ExtractTasks_without_patterns_witness :
  Client.ExtractTasks string Samples.isSet Samples.summaryTasks
    Samples.tagTasks Samples.projectTasks Samples.entryA
    (Samples.tasksNamed ["TAG-1"])
    (Client.mkTaskExtractionOpts string EmptyString EmptyString EmptyString
       Client.SplitAcrossTasks)
  = [].
Proof.
  apply (ExtractTasks_without_patterns string Samples.isSet
           Samples.summaryTasks Samples.tagTasks Samples.projectTasks
           Samples.entryA (Samples.tasksNamed ["TAG-1"])
           (Client.mkTaskExtractionOpts string EmptyString EmptyString
              EmptyString Client.SplitAcrossTasks)); reflexivity.
Defined.

Lemma ExtractTasks_first_only_takes_first_witness :
  let opts :=
    Client.mkTaskExtractionOpts string "TAG-\d+" EmptyString "MARVEL"
      Client.FirstTaskOnly in
  let extracted :=
    Client.ExtractTasks string Samples.isSet Samples.summaryTasks
      Samples.tagTasks Samples.projectTasks Samples.entryA
      (Samples.tasksNamed ["TAG-1"; "TAG-2"]) opts in
  extracted = Samples.tasksNamed ["TAG-1"] /\ (length extracted <= 1)%nat.
Proof.
  apply (ExtractTasks_first_only_takes_first string Samples.isSet
           Samples.summaryTasks Samples.tagTasks Samples.projectTasks
           Samples.entryA (Samples.tasksNamed ["TAG-1"; "TAG-2"])
           (Client.mkTaskExtractionOpts string "TAG-\d+" EmptyString "MARVEL"
              Client.FirstTaskOnly)).
  reflexivity.
Defined.

Lemma uploadGroup_posts_only_resolved_entries_witness :
  let trace :=
    TempoCloud.uploadGroup string string "failed to upload entries"
      Samples.unmarshal Samples.formatDate Samples.formatTime
      Samples.showUploadEntry Samples.client
      "https://api.tempo.io/4/worklogs"
      "https://marvel.atlassian.net/rest/api/3/issue/"
      (Samples.uploadOpts false false) Samples.secondLookupFails 0
      [Samples.entryA; Samples.entryB; Samples.entryC] in
  (length (Traces.posted trace) < 3)%nat.
Proof.
  apply (uploadGroup_posts_only_resolved_entries string string
           "failed to upload entries" Samples.unmarshal Samples.formatDate
           Samples.formatTime Samples.showUploadEntry Samples.client
           "https://api.tempo.io/4/worklogs"
           "https://marvel.atlassian.net/rest/api/3/issue/"
           (Samples.uploadOpts false false) Samples.secondLookupFails
           [Samples.entryA; Samples.entryB; Samples.entryC])
    with (i := 1%nat) (entry := Samples.entryB); reflexivity.
Defined.

Lemma uploadGroup_publishes_nil_iff_success_witness :
  let trace :=
    TempoCloud.uploadGroup string string "failed to upload entries"
      Samples.unmarshal Samples.formatDate Samples.formatTime
      Samples.showUploadEntry Samples.client
      "https://api.tempo.io/4/worklogs"
      "https://marvel.atlassian.net/rest/api/3/issue/"
      (Samples.uploadOpts false false) Samples.secondLookupFails 0
      [Samples.entryA; Samples.entryB; Samples.entryC] in
  TempoCloud.sent trace !! 2%nat
  = Some (TempoCloud.entryResult "failed to upload entries" Samples.unmarshal
            Samples.formatDate Samples.formatTime Samples.showUploadEntry
            (Samples.uploadOpts false false) (Samples.secondLookupFails 2)
            Samples.entryC) /\
  (TempoCloud.sent trace !! 2%nat = Some None <->
   exists resp issue,
     TempoCloud.jiraResp (Samples.secondLookupFails 2) = inl resp /\
     Samples.unmarshal resp = inl issue /\
     TempoCloud.tempoErr (Samples.secondLookupFails 2) = None).
Proof.
  apply (uploadGroup_publishes_nil_iff_success string string
           "failed to upload entries" Samples.unmarshal Samples.formatDate
           Samples.formatTime Samples.showUploadEntry Samples.client
           "https://api.tempo.io/4/worklogs"
           "https://marvel.atlassian.net/rest/api/3/issue/"
           (Samples.uploadOpts false false) Samples.secondLookupFails
           [Samples.entryA; Samples.entryB; Samples.entryC] 2%nat Samples.entryC).
  reflexivity.
Defined.

Lemma delivered_stream_holds_exactly_the_results_witness :
  let run :=
    TempoCloud.UploadEntries string string Samples.urlOk
      "failed to upload entries" Samples.unmarshal Samples.formatDate
      Samples.formatTime Samples.showUploadEntry Samples.client
      Samples.allFine [Samples.entryA; Samples.entryC; Samples.entryB]
      (Samples.uploadOpts false false) in
  concat (TempoCloud.sent (TempoCloud.caller run)
          :: (TempoCloud.sent <$> TempoCloud.groupTasks run))
  ≡ₚ concat
       ((fun g : string * Worklog.Entries =>
           imap (fun i entry =>
                   TempoCloud.entryResult "failed to upload entries"
                     Samples.unmarshal Samples.formatDate Samples.formatTime
                     Samples.showUploadEntry (Samples.uploadOpts false false)
                     (Samples.allFine g.1 i) entry) g.2)
          <$> map_to_list
                (Worklog.GroupByTask
                   [Samples.entryA; Samples.entryC; Samples.entryB])).
Proof.
  intros run.
  apply (delivered_stream_holds_exactly_the_results string string Samples.urlOk
           "failed to upload entries" Samples.unmarshal Samples.formatDate
           Samples.formatTime Samples.showUploadEntry Samples.client
           Samples.allFine [Samples.entryA; Samples.entryC; Samples.entryB]
           (Samples.uploadOpts false false)
           "https://api.tempo.io/4/worklogs"
           "https://marvel.atlassian.net/rest/api/3/issue/").
  - reflexivity.
  - reflexivity.
  - apply Merge_concat.
Defined.


Lemma rounding_whole_seconds_is_half_away_from_zero_witness :
  Duration.roundToClosestMinute (- (150 * Duration.Second))
  = Z.sgn (- (150 * Duration.Second))
    * ((Z.abs (- (150 * Duration.Second)) / Duration.Minute
        + (if 30 * Duration.Second
              <=? Z.abs (- (150 * Duration.Second)) mod Duration.Minute
           then 1 else 0))
       * Duration.Minute).
Proof.
  apply (rounding_whole_seconds_is_half_away_from_zero (- (150 * Duration.Second))).
  - vm_compute. split; discriminate.
  - reflexivity.
Defined.

Lemma wholeSeconds_truncates_witness :
  TempoCloud.wholeSeconds (- 1999999999)
  = Z.quot (- 1999999999) Duration.Second /\
  Z.abs (TempoCloud.wholeSeconds (- 1999999999)) * Duration.Second
  <= Z.abs (- 1999999999)
  < (Z.abs (TempoCloud.wholeSeconds (- 1999999999)) + 1) * Duration.Second.
Proof.
  apply (wholeSeconds_truncates (- 1999999999)). reflexivity.
Defined.

Lemma folded_time_is_all_billable_witness :
  let entry := Samples.withDurations 1500000000 2700000000 in
  let opts := Samples.uploadOpts true false in
  let sent :=
    TempoCloud.makeUploadEntry Samples.formatDate Samples.formatTime entry
      (TempoCloud.mkJiraIssue 789 "CPT-2014") opts in
  TempoCloud.BillableSeconds sent = TempoCloud.TimeSpentSeconds sent /\
  TempoCloud.postUnbillable opts entry = 0.
Proof.
  apply (folded_time_is_all_billable Samples.formatDate Samples.formatTime
           (Samples.withDurations 1500000000 2700000000)
           (TempoCloud.mkJiraIssue 789 "CPT-2014")
           (Samples.uploadOpts true false)).
  reflexivity.
Defined.

Lemma rounded_components_are_whole_minutes_witness :
  let entry := Samples.withDurations 89999999999 30000000001 in
  let opts := Samples.uploadOpts false true in
  let sent :=
    TempoCloud.makeUploadEntry Samples.formatDate Samples.formatTime entry
      (TempoCloud.mkJiraIssue 789 "CPT-2014") opts in
  exists kb ku,
    TempoCloud.postBillable opts entry = kb * Duration.Minute /\
    TempoCloud.postUnbillable opts entry = ku * Duration.Minute /\
    TempoCloud.BillableSeconds sent = 60 * kb /\
    (Duration.in_int64 ((kb + ku) * Duration.Minute) ->
     TempoCloud.TimeSpentSeconds sent = 60 * (kb + ku)).
Proof.
  apply (rounded_components_are_whole_minutes Samples.formatDate
           Samples.formatTime (Samples.withDurations 89999999999 30000000001)
           (TempoCloud.mkJiraIssue 789 "CPT-2014")
           (Samples.uploadOpts false true)).
  - reflexivity.
  - vm_compute. split; discriminate.
  - vm_compute. split; discriminate.
Defined.

Lemma billable_seconds_within_time_spent_witness :
  let entry := Samples.withDurations 1500000000 2700000000 in
  let opts := Samples.uploadOpts false false in
  let sent :=
    TempoCloud.makeUploadEntry Samples.formatDate Samples.formatTime entry
      (TempoCloud.mkJiraIssue 789 "CPT-2014") opts in
  0 <= TempoCloud.BillableSeconds sent <= TempoCloud.TimeSpentSeconds sent.
Proof.
  apply (billable_seconds_within_time_spent Samples.formatDate
           Samples.formatTime (Samples.withDurations 1500000000 2700000000)
           (TempoCloud.mkJiraIssue 789 "CPT-2014")
           (Samples.uploadOpts false false)).
  - vm_compute. discriminate.
  - vm_compute. discriminate.
  - reflexivity.
Defined.

Lemma unrounded_seconds_are_floors_witness :
  let entry := Samples.withDurations 1500000000 2700000000 in
  let opts := Samples.uploadOpts false false in
  let sent :=
    TempoCloud.makeUploadEntry Samples.formatDate Samples.formatTime entry
      (TempoCloud.mkJiraIssue 789 "CPT-2014") opts in
  TempoCloud.BillableSeconds sent = 1500000000 / Duration.Second /\
  TempoCloud.TimeSpentSeconds sent
  = (1500000000 + 2700000000) / Duration.Second /\
  TempoCloud.TimeSpentSeconds sent
  = TempoCloud.BillableSeconds sent
    + TempoCloud.wholeSeconds (TempoCloud.postUnbillable opts entry)
    + (if Duration.Second <=? 1500000000 mod Duration.Second
                               + 2700000000 mod Duration.Second
       then 1 else 0).
Proof.
  apply (unrounded_seconds_are_floors Samples.formatDate
           Samples.formatTime (Samples.withDurations 1500000000 2700000000)
           (TempoCloud.mkJiraIssue 789 "CPT-2014")
           (Samples.uploadOpts false false)).
  - reflexivity.
  - reflexivity.
  - vm_compute. discriminate.
  - vm_compute. discriminate.
  - reflexivity.
Defined.

Lemma getUploader_tempo_cloud_is_never_nil_witness :
  let get :=
    Root.getUploader string string Samples.parseUrl Samples.tokenAuth
      Samples.basicAuth 30 unit
      (fun _ => (Some (Root.TempoUploader _ _ _ tt), None)) in
  exists c err,
    get {["target" := "tempo-cloud"]}
    = (Some (Root.TempoCloudUploader string string unit c), err) /\
    (c = None <-> is_Some err).
Proof.
  apply (getUploader_tempo_cloud_is_never_nil string string Samples.parseUrl
           Samples.tokenAuth Samples.basicAuth 30 unit
           (fun _ => (Some (Root.TempoUploader _ _ _ tt), None))
           {["target" := "tempo-cloud"]}).
  reflexivity.
Defined.

End MoreExamples.
